(** * wolfinit: a process-1 supervisor, embedded in Rocq

    The program is a single Go [main] package.  The repository carries several
    iterations of [main.go]; the feature-complete one (mounts, configuration,
    network, launcher, signal relay, zombie reaper, shutdown) is embedded in
    full below; the first iteration (a lone [/proc] mount and a fixed command)
    is embedded in [Module Initial] and the second (configuration, no network,
    arguments split at spaces) in [Module Second].

    Conventions of the embedding:
    - Go [string] is [string] (a byte sequence);
    - Go [int] is a 64-bit signed integer and [uint32] a 32-bit unsigned one,
      both carried by [Z] with the conversions written out;
    - a Go [error] return is an [option string] ([None] is [nil]);
    - a [map[string]string] is an [option (gmap string string)], [None] being
      the nil map;
    - everything outside the process (mount, files, netlink, DHCP, exec) is
      read from a [World] record, so every run of [main] is a function of the
      world it boots in and yields the sequence of [event]s it performs. *)

From Stdlib Require Import ZArith Ascii String List Lia DecimalString DecimalPos.
From stdpp Require Import base option list strings gmap.

Local Open Scope string_scope.
Local Open Scope list_scope.
Local Open Scope Z_scope.

(** ** Go library functions used by [main] *)

Module Go.

(** A value-or-error pair as Go functions return it. *)
Inductive res (A : Type) : Type :=
| Val (a : A)
| Err (e : string).
Arguments Val {A} a.
Arguments Err {A} e.

Definition intSize : Z := 64.
Definition minInt : Z := - 2 ^ (intSize - 1).
Definition maxInt : Z := 2 ^ (intSize - 1) - 1.

(** [uint32(x)] for an [int] x: the low 32 bits. *)
Definition uint32 (x : Z) : Z := x mod 2 ^ 32.

(** [c - '0'], when [c] is a decimal digit. *)
Definition digit (c : ascii) : option Z :=
  let n := Z.of_N (N_of_ascii c) in
  if (48 <=? n) && (n <=? 57) then Some (n - 48) else None.

Fixpoint digits (s : string) (acc : Z) : option Z :=
  match s with
  | EmptyString => Some acc
  | String c r =>
      match digit c with
      | Some d => digits r (acc * 10 + d)
      | None => None
      end
  end.

Definition dquote : ascii := ascii_of_nat 34.
Definition backslash : ascii := ascii_of_nat 92.

Definition hex (n : N) : ascii :=
  nth (N.to_nat n) (list_ascii_of_string "0123456789abcdef") "0"%char.

(** What [strconv.Quote] writes for one byte below 0x80: the quote and the
    backslash behind a backslash, a printable character as it is, the control
    characters by their letter or as [\xhh].  The bytes of a longer UTF-8
    sequence are kept, as [strconv.Quote] keeps a printable rune; invalid
    UTF-8 and runes that do not print are outside this model. *)
Definition escape (c : ascii) : string :=
  let n := N_of_ascii c in
  let esc (l : ascii) := String backslash (String l EmptyString) in
  if ((n =? 34) || (n =? 92))%N then esc c
  else if ((32 <=? n) && (n <? 127))%N then String c EmptyString
  else if (n =? 7)%N then esc "a"%char
  else if (n =? 8)%N then esc "b"%char
  else if (n =? 12)%N then esc "f"%char
  else if (n =? 10)%N then esc "n"%char
  else if (n =? 13)%N then esc "r"%char
  else if (n =? 9)%N then esc "t"%char
  else if (n =? 11)%N then esc "v"%char
  else if (n <? 128)%N then
    String backslash
      (String "x"%char
         (String (hex (n / 16)%N) (String (hex (n mod 16)%N) EmptyString)))
  else String c EmptyString.

Fixpoint escaped (s : string) : string :=
  match s with
  | EmptyString => EmptyString
  | String c r => escape c +:+ escaped r
  end.

(** [strconv.Quote]. *)
Definition Quote (s : string) : string :=
  String dquote (escaped s +:+ String dquote EmptyString).

(** [strconv.Atoi]: an optional sign, then one or more decimal digits, the
    value within the range of [int].  The error is a [*NumError], whose text
    quotes the input. *)
Definition Atoi (s : string) : res Z :=
  let syntax := Err ("strconv.Atoi: parsing " +:+ Quote s +:+ ": invalid syntax") in
  let range := Err ("strconv.Atoi: parsing " +:+ Quote s +:+ ": value out of range") in
  match s with
  | EmptyString => syntax
  | String c r =>
      let neg := Ascii.eqb c "-"%char in
      let body := if neg || Ascii.eqb c "+"%char then r else s in
      match body with
      | EmptyString => syntax
      | _ =>
          match digits body 0 with
          | None => syntax
          | Some n =>
              let v := if neg then - n else n in
              if (minInt <=? v) && (v <=? maxInt) then Val v else range
          end
      end
  end.

(** [fmt.Sprint] of an unsigned integer: its decimal digits. *)
Definition Sprint (n : Z) : string :=
  NilZero.string_of_uint (N.to_uint (Z.to_N n)).

End Go.

Export Go(res, Val, Err).

(** ** The image configuration (the structs at the end of the file) *)

Record ImageEntrypoint : Type := {
  Command : string
}.

Record User : Type := {
  UserName : string;
  UID : Z;          (* uint32 *)
  GID : Z           (* uint32 *)
}.

Record ImageAccounts : Type := {
  RunAs : string;
  Users : list User
}.

Record ImageConfiguration : Type := {
  Entrypoint : ImageEntrypoint;
  Cmd : string;
  WorkDir : string;
  Accounts : ImageAccounts;
  Environment : option (gmap string string)
}.

(** The zero value [var ic ImageConfiguration]. *)
Definition zeroConfiguration : ImageConfiguration :=
  {| Entrypoint := {| Command := "" |};
     Cmd := "";
     WorkDir := "";
     Accounts := {| RunAs := ""; Users := [] |};
     Environment := None |}.

Definition defaultPath : string :=
  "/sbin:/usr/sbin:/bin:/usr/bin:/usr/local/sbin:/usr/local/bin".

(** ** Runs of the program: events, outcomes, and the world outside *)

(** [exec.Cmd], the fields [main] sets. *)
Record ExecCmd : Type := {
  Path : string;             (* args[0] *)
  Args : list string;        (* args[1:] *)
  Dir : string;
  Env : list string;
  Uid : Z;                   (* Credential.Uid, uint32 *)
  Gid : Z                    (* Credential.Gid, uint32 *)
}.

(** What a run does to the outside, in program order. *)
Inductive event : Type :=
| Log (msg : string)
| Mount (source target fstype options : string)
| Mkdir (path : string)
| ReadFile (path : string)
| WriteFile (path data : string)
| LinkByName (name : string)
| LinkList
| LinkSetUp (name : string)
| SendRequests (name : string)
| Configure (name : string)
| Setenv (key value : string)
| Start (c : ExecCmd)
| Wait (pid : Z).

(** How a sequence of statements ends. *)
Inductive outcome (A : Type) : Type :=
| Done (a : A)               (* ran to its end *)
| Panicked (msg : string)    (* log.Panicf or a run-time panic: deferred calls run *)
| Exited (code : Z)          (* os.Exit, as log.Fatalf does: nothing else runs *)
| Blocked.                   (* select {}: never returns *)
Arguments Done {A} a.
Arguments Panicked {A} msg.
Arguments Exited {A} code.
Arguments Blocked {A}.

Record M (A : Type) : Type := Run {
  trace : list event;
  out : outcome A
}.
Arguments Run {A} trace out.
Arguments trace {A} m.
Arguments out {A} m.

#[global] Instance M_ret : MRet M := fun A a => Run [] (Done a).

#[global] Instance M_bind : MBind M := fun A B f m =>
  match out m with
  | Done a => Run (trace m ++ trace (f a)) (out (f a))
  | Panicked msg => Run (trace m) (Panicked msg)
  | Exited code => Run (trace m) (Exited code)
  | Blocked => Run (trace m) Blocked
  end.

Definition emit (e : event) : M unit := Run [e] (Done tt).

(** [log.Printf], [log.Panicf] and [log.Fatalf]; a [%v] verb prints [e]. *)
Definition Printf (msg : string) : M unit := emit (Log msg).
Definition Panicf {A} (msg : string) : M A := Run [Log msg] (Panicked msg).
Definition Fatalf {A} (msg : string) : M A := Run [Log msg] (Exited 1).

(** [defer d] in front of [body]: [d] runs when [body] returns or panics, and
    not when the process has exited or hangs. *)
Definition defer {A} (d : M unit) (body : M A) : M A :=
  match out body with
  | Done a => Run (trace body ++ trace d)
                match out d with
                | Done _ => Done a
                | Panicked msg => Panicked msg
                | Exited code => Exited code
                | Blocked => Blocked
                end
  | Panicked msg => Run (trace body ++ trace d)
                match out d with
                | Done _ => Panicked msg
                | Panicked msg' => Panicked msg'
                | Exited code => Exited code
                | Blocked => Blocked
                end
  | Exited code => Run (trace body) (Exited code)
  | Blocked => Run (trace body) Blocked
  end.

Record Link : Type := {
  Name : string;
  Flags : Z
}.

(** [net.FlagBroadcast] and [net.FlagMulticast]. *)
Definition FlagBroadcast : Z := Z.shiftl 1 1.
Definition FlagMulticast : Z := Z.shiftl 1 4.

(** One element of the stream [dhclient.SendRequests] yields. *)
Record Result : Type := {
  Interface : string;
  Protocol : string;
  ResultErr : option string;
  LeaseConfigure : option string     (* what result.Lease.Configure() returns *)
}.

(** Everything [main] asks of the kernel and of the libraries it imports.
    Each field answers one call site by its arguments. *)
Record World : Type := {
  mount_Mount : string -> string -> string -> string -> option string;
  os_Mkdir : string -> option string;
  os_ReadFile : string -> string * option string;   (* the bytes read, and err *)
  os_WriteFile : string -> string -> option string;
  os_Setenv : string -> string -> option string;
  json_decode : string -> res ImageConfiguration;
  shlex_Split : string -> res (list string);
  netlink_LinkByName : string -> res Link;
  netlink_LinkList : res (list Link);
  netlink_LinkSetUp : Link -> option string;
  dhclient_SendRequests : Link -> list Result;
  cmd_Start : ExecCmd -> res Z;                      (* the child's pid *)
  cmd_Wait : Z -> option string
}.

Definition sysrq : string := "/proc/sysrq-trigger".
Definition nl : string := String (ascii_of_nat 10) EmptyString.

Section Boot.

Variable w : World.

(** *** [shutdown] *)

Definition shutdown : M unit :=
  emit (WriteFile sysrq ("s" +:+ nl));;
  match os_WriteFile w sysrq ("s" +:+ nl) with
  | Some err => Fatalf ("failed to sync " +:+ err)
  | None =>
      emit (WriteFile sysrq ("o" +:+ nl));;
      match os_WriteFile w sysrq ("o" +:+ nl) with
      | Some err => Fatalf ("failed to poweroff " +:+ err)
      | None => Run [] Blocked
      end
  end.

(** *** Boot environment setup: the five mounts at the head of [main] *)

(** [if err := mount.Mount(...); err != nil { log.Printf(...) }] *)
Definition try_mount (source target fstype options : string) : M unit :=
  emit (Mount source target fstype options);;
  match mount_Mount w source target fstype options with
  | Some err => Printf ("failed to mount: " +:+ err)
  | None => mret tt
  end.

Definition mount_proc : M unit :=
  try_mount "proc" "/proc" "proc" "nodev,nosuid,hidepid=2".

Definition mount_rest : M unit :=
  try_mount "devtmpfs" "/dev" "devtmpfs" "nosuid,noexec";;
  emit (Mkdir "/sys");;
  match os_Mkdir w "/sys" with
  | Some err => Printf ("failed to create /sys: " +:+ err)
  | None => try_mount "sys" "/sys" "sysfs" "nodev,nosuid,noexec"
  end;;
  try_mount "cgroup" "/sys/fs/cgroup" "cgroup" "all";;
  try_mount "tmpfs" "/tmp" "tmpfs" "nodev,nosuid,noexec".

(** *** Configuration Loader *)

Definition apko_json : string := "/etc/apko.json".

(** JSON white space: space, tab, line feed, carriage return. *)
Definition is_space (c : ascii) : bool :=
  let n := N_of_ascii c in
  (n =? 32)%N || (n =? 9)%N || (n =? 10)%N || (n =? 13)%N.

Fixpoint blank (s : string) : bool :=
  match s with
  | EmptyString => true
  | String c r => is_space c && blank r
  end.

(** [json.Unmarshal(b, &ic)] with [ic] the zero value.  The decoder first
    scans for a complete JSON value, and a document without one (empty, or
    white space only) is the syntax error below; what it makes of any other
    document is the world's [json_decode]. *)
Definition json_Unmarshal (b : string) : res ImageConfiguration :=
  if blank b then Err "unexpected end of JSON input" else json_decode w b.

(** "Ensure path is set in the environment." *)
Definition ensure_PATH (ic : ImageConfiguration) : ImageConfiguration :=
  let env := match Environment ic with
             | None => ∅               (* make(map[string]string, 1) *)
             | Some m => m
             end in
  let env := match env !! "PATH" with
             | Some _ => env
             | None => <["PATH" := defaultPath]> env
             end in
  {| Entrypoint := Entrypoint ic;
     Cmd := Cmd ic;
     WorkDir := WorkDir ic;
     Accounts := Accounts ic;
     Environment := Some env |}.

Definition load_config : M ImageConfiguration :=
  emit (ReadFile apko_json);;
  let '(b, err) := os_ReadFile w apko_json in
  match err with
  | Some e => Printf ("failed to read /etc/apko.json: " +:+ e)
  | None => mret tt
  end;;
  match json_Unmarshal b with
  | Err e => Panicf ("failed to unmarshal /etc/apko.json: " +:+ e)
  | Val ic => mret (ensure_PATH ic)
  end.

(** *** Network bring-up *)

Definition has_flag (l : Link) (f : Z) : bool := Z.land (Flags l) f =? f.

(** The first link that is both broadcast and multicast capable. *)
Fixpoint select_link (ll : list Link) : option Link :=
  match ll with
  | [] => None
  | link :: rest =>
      if negb (has_flag link FlagBroadcast) then select_link rest
      else if negb (has_flag link FlagMulticast) then select_link rest
      else Some link
  end.

Definition could_not (r : Result) (e : string) : string :=
  "Could not configure " +:+ Interface r +:+ " for " +:+ Protocol r +:+ ": " +:+ e.

Fixpoint configure_all (rs : list Result) : M unit :=
  match rs with
  | [] => mret tt
  | r :: rest =>
      match ResultErr r with
      | Some e => Printf (could_not r e)
      | None =>
          emit (Configure (Interface r));;
          match LeaseConfigure r with
          | Some e => Printf (could_not r e)
          | None => mret tt
          end
      end;;
      configure_all rest
  end.

Definition network : M unit :=
  emit (LinkByName "lo");;
  match netlink_LinkByName w "lo" with
  | Err e => Panicf ("failed to get lo: " +:+ e)
  | Val lo =>
      emit (LinkSetUp (Name lo));;
      match netlink_LinkSetUp w lo with
      | Some e => Panicf ("failed to set lo up: " +:+ e)
      | None => mret tt
      end
  end;;
  emit LinkList;;
  match netlink_LinkList w with
  | Err e => Panicf ("failed to list links: " +:+ e)
  | Val ll =>
      match select_link ll with
      | None => Panicf "no suitable interface found to listen on"
      | Some eth0 =>
          emit (LinkSetUp (Name eth0));;
          match netlink_LinkSetUp w eth0 with
          | Some e => Panicf ("failed to set network interface " +:+ Name eth0
                              +:+ " up: " +:+ e)
          | None =>
              emit (SendRequests (Name eth0));;
              configure_all (dhclient_SendRequests w eth0);;
              Printf "Finished trying to configure all interfaces."
          end
      end
  end.

(** *** Workload Launcher *)

(** "Split entrypoint and cmd and build up the args." *)
Definition split_args (ic : ImageConfiguration) : M (list string) :=
  let args : list string := [] in
  args ← (if String.eqb (Command (Entrypoint ic)) "" then mret args
          else match shlex_Split w (Command (Entrypoint ic)) with
               | Err e => Panicf ("failed to split entrypoint: " +:+ e)
               | Val splitep => mret (args ++ splitep)
               end);
  if String.eqb (Cmd ic) "" then mret args
  else match shlex_Split w (Cmd ic) with
       | Err e => Panicf ("failed to split command: " +:+ e)
       | Val splitcmd => mret (args ++ splitcmd)
       end.

(** [args[0], args[1:]...]: indexing an empty slice is a run-time panic. *)
Definition head_tail (args : list string) : M (string * list string) :=
  match args with
  | [] => Run [] (Panicked "runtime error: index out of range [0] with length 0")
  | a :: rest => mret (a, rest)
  end.

(** [fmt.Sprintf("%s=%s", k, v)] for every entry, in the map's own order. *)
Definition environ (env : gmap string string) : list string :=
  (fun kv => fst kv +:+ "=" +:+ snd kv) <$> map_to_list env.

(** [acct.UserName == runAs || fmt.Sprint(acct.UID) == runAs] *)
Definition matches (runAs : string) (acct : User) : bool :=
  String.eqb (UserName acct) runAs || String.eqb (Go.Sprint (UID acct)) runAs.

(** The loop over [ic.Accounts.Users], from [uid] and [gid] as they stand:
    the first record whose name or printed uid is [runAs] sets both and
    breaks. *)
Fixpoint search_users (runAs : string) (users : list User) (uid gid : Z) : Z * Z :=
  match users with
  | [] => (uid, gid)
  | acct :: rest =>
      if String.eqb (UserName acct) runAs || String.eqb (Go.Sprint (UID acct)) runAs
      then (UID acct, GID acct)
      else search_users runAs rest uid gid
  end.

(** "Set the user to run as (default to 0)": the [int] pair [uid, gid]. *)
Definition run_as (ic : ImageConfiguration) : M (Z * Z) :=
  let '(uid, gid) := (0, 0) in
  let runAs := RunAs (Accounts ic) in
  if negb (String.eqb runAs "") then
    let '(uid, gid) := search_users runAs (Users (Accounts ic)) uid gid in
    if (uid =? 0) && negb (String.eqb runAs "root") then
      match Go.Atoi runAs with
      | Err e => Panicf ("failed to convert run-as user: " +:+ e)
      | Val uid => mret (uid, gid)
      end
    else mret (uid, gid)
  else mret (uid, gid).

(** [&syscall.Credential{Uid: uint32(uid), Gid: uint32(gid)}] *)
Definition credential (ug : Z * Z) : Z * Z := (Go.uint32 (fst ug), Go.uint32 (snd ug)).

Definition lookup_env (ic : ImageConfiguration) (k : string) : string :=
  default "" (default ∅ (Environment ic) !! k).

(** From [os.Setenv] to the finished [exec.Cmd]. *)
Definition launcher (ic : ImageConfiguration) : M ExecCmd :=
  emit (Setenv "PATH" (lookup_env ic "PATH"));;
  match os_Setenv w "PATH" (lookup_env ic "PATH") with
  | Some e => Panicf ("failed to set PATH: " +:+ e)
  | None => mret tt
  end;;
  args ← split_args ic;
  '(path, rest) ← head_tail args;
  ug ← run_as ic;
  mret {| Path := path;
          Args := rest;
          Dir := WorkDir ic;
          Env := environ (default ∅ (Environment ic));
          Uid := fst (credential ug);
          Gid := snd (credential ug) |}.

(** [cmd.Start()] and [cmd.Wait()], as the main goroutine calls them.
    [Wait pid] records the call of [cmd.Wait()], whose result [main] drops.
    The call returns only when the child exits: a run that goes past it
    describes an execution in which the child does exit, and a workload that
    keeps running has no run here. *)
Definition supervise (cmd : ExecCmd) : M unit :=
  emit (Start cmd);;
  match cmd_Start w cmd with
  | Err e => Panicf ("failed to run command: " +:+ e)
  | Val pid => emit (Wait pid)
  end.

(** *** [main] *)

(** Everything [main] does after [defer shutdown()].  The two goroutines it
    starts on the way, the zombie reaper and the signal relay, run beside this
    sequence and are modelled in [Reaper] and [Relay]. *)
Definition boot : M unit :=
  mount_rest;;
  ic ← load_config;
  network;;
  cmd ← launcher ic;
  supervise cmd.

(** The run of the main goroutine, with [shutdown] as its deferred call.
    The signal channel, [defer close(sigs)], [signal.Notify],
    [defer signal.Reset()] and the relay goroutine are set up between the
    launcher and [supervise] and are not part of this run; a run that ends
    before [supervise] ends before they exist.  After a failed [cmd.Start()]
    the deferred [close(sigs)] wakes the relay goroutine, which then reads the
    nil [cmd.Process] while [shutdown] runs: how the process ends in that case
    is not described by [out] of this run. *)
Definition main : M unit :=
  mount_proc;;
  defer shutdown boot.

End Boot.

(** ** A concrete world, to run [main] in *)

(** The lexer of [github.com/google/shlex], which [main] imports: one scan
    over the input through the tokenizer's states.  Words end at white space;
    single quotes take everything up to the closing quote, double quotes the
    same with backslash escapes; a [#] at the start of a token opens a comment
    up to the end of the line.  The end of the input inside quotes or after a
    backslash is an error. *)
Module Shlex.

Inductive runeTokenClass : Type :=
| unknownRuneClass | spaceRuneClass | escapingQuoteRuneClass
| nonEscapingQuoteRuneClass | escapeRuneClass | commentRuneClass.

Inductive lexerState : Type :=
| startState | inWordState | escapingState | escapingQuotedState
| quotingEscapingState | quotingState | commentState.

Definition ClassifyRune (c : ascii) : runeTokenClass :=
  let n := N_of_ascii c in
  if (n =? 32)%N || (n =? 9)%N || (n =? 13)%N || (n =? 10)%N then spaceRuneClass
  else if (n =? 34)%N then escapingQuoteRuneClass
  else if (n =? 39)%N then nonEscapingQuoteRuneClass
  else if (n =? 92)%N then escapeRuneClass
  else if (n =? 35)%N then commentRuneClass
  else unknownRuneClass.

Definition push (value : string) (c : ascii) : string :=
  value +:+ String c EmptyString.

Definition emit_word (word : string) (r : res (list string)) : res (list string) :=
  match r with
  | Val words => Val (word :: words)
  | Err e => Err e
  end.

Fixpoint scan (state : lexerState) (value : string) (input : string)
  : res (list string) :=
  match input with
  | EmptyString =>
      match state with
      | startState | commentState => Val []
      | inWordState => Val [value]
      | escapingState | escapingQuotedState =>
          Err "EOF found after escape character"
      | quotingEscapingState | quotingState =>
          Err "EOF found when expecting closing quote"
      end
  | String c rest =>
      let cls := ClassifyRune c in
      match state with
      | startState =>
          match cls with
          | spaceRuneClass => scan startState "" rest
          | escapingQuoteRuneClass => scan quotingEscapingState "" rest
          | nonEscapingQuoteRuneClass => scan quotingState "" rest
          | escapeRuneClass => scan escapingState "" rest
          | commentRuneClass => scan commentState "" rest
          | unknownRuneClass => scan inWordState (push "" c) rest
          end
      | inWordState =>
          match cls with
          | spaceRuneClass => emit_word value (scan startState "" rest)
          | escapingQuoteRuneClass => scan quotingEscapingState value rest
          | nonEscapingQuoteRuneClass => scan quotingState value rest
          | escapeRuneClass => scan escapingState value rest
          | _ => scan inWordState (push value c) rest
          end
      | escapingState => scan inWordState (push value c) rest
      | escapingQuotedState => scan quotingEscapingState (push value c) rest
      | quotingEscapingState =>
          match cls with
          | escapingQuoteRuneClass => scan inWordState value rest
          | escapeRuneClass => scan escapingQuotedState value rest
          | _ => scan quotingEscapingState (push value c) rest
          end
      | quotingState =>
          match cls with
          | nonEscapingQuoteRuneClass => scan inWordState value rest
          | _ => scan quotingState (push value c) rest
          end
      | commentState =>
          if (N_of_ascii c =? 10)%N then scan startState "" rest
          else scan commentState value rest
      end
  end.

Definition Split (s : string) : res (list string) := scan startState "" s.

End Shlex.


(** The first iteration of [main.go]: one mount, a fixed command, no
    configuration.  Its [shutdown] is the same function. *)
Module Initial.

Section Boot.

Variable w : World.

Definition mount_proc : M unit :=
  emit (Mount "proc" "/proc" "proc" "nodev,nosuid,hidepid=2");;
  match mount_Mount w "proc" "/proc" "proc" "nodev,nosuid,hidepid=2" with
  | Some err => Fatalf ("failed to mount: " +:+ err)
  | None => mret tt
  end.

(** [exec.CommandContext(ctx, "grep", ".", "/proc/cmdline")]; no
    credential is set, so the child keeps the identity of init. *)
Definition cmd : ExecCmd :=
  {| Path := "grep";
     Args := ["."; "/proc/cmdline"];
     Dir := "";
     Env := ["PATH=" +:+ defaultPath];
     Uid := 0;
     Gid := 0 |}.

(** [cmd.Run()]: start, then wait. *)
Definition run_cmd : M unit :=
  emit (Start cmd);;
  match cmd_Start w cmd with
  | Err e => Panicf ("failed to run command: " +:+ e)
  | Val pid =>
      emit (Wait pid);;
      match cmd_Wait w pid with
      | Some e => Panicf ("failed to run command: " +:+ e)
      | None => mret tt
      end
  end.

Definition main : M unit :=
  mount_proc;;
  defer (shutdown w)
    (emit (Setenv "PATH" defaultPath);;
     match os_Setenv w "PATH" defaultPath with
     | Some e => Panicf ("failed to set PATH: " +:+ e)
     | None => mret tt
     end;;
     run_cmd).

End Boot.

End Initial.

(** ** The signal relay

    [main] makes a channel of capacity one, has [signal.Notify] send SIGINT,
    SIGABRT and SIGTERM to it, and starts one goroutine that receives from the
    channel, logs, and signals the child.  The package never blocks on the
    channel: a signal that arrives while the buffer is full is dropped.  The
    model interleaves arrivals of signals with turns of that goroutine, from
    the start of the child to its exit.  (SIGINT also cancels the context of
    [main], on which [exec] kills the child; that path is no part of the
    relay.) *)
Module Relay.

Inductive Signal : Type := SIGHUP | SIGINT | SIGQUIT | SIGABRT | SIGTERM.

(** [signal.Notify(sigs, syscall.SIGINT, syscall.SIGABRT, syscall.SIGTERM)] *)
Definition notified (s : Signal) : bool :=
  match s with
  | SIGINT | SIGABRT | SIGTERM => true
  | _ => false
  end.

Definition capacity : nat := 1.       (* make(chan os.Signal, 1) *)

Record state : Type := {
  sigs : list Signal;                 (* the channel's buffer, oldest first *)
  receiving : bool;                   (* the goroutine has not yet passed [<-sigs] *)
  signalled : list (Z * Signal)       (* cmd.Process.Signal(sig) calls, in order *)
}.

Definition init : state :=
  {| sigs := []; receiving := true; signalled := [] |}.

Inductive action : Type :=
| Arrive (s : Signal)                 (* the process receives [s] *)
| Turn.                               (* the relay goroutine is scheduled *)

(** The non-blocking send of the signal package. *)
Definition deliver (s : Signal) (st : state) : state :=
  if notified s && (length (sigs st) <? capacity)%nat
  then {| sigs := sigs st ++ [s];
          receiving := receiving st;
          signalled := signalled st |}
  else st.

(** The goroutine's body: [sig := <-sigs; log.Printf(...);
    cmd.Process.Signal(sig)], after which the goroutine returns. *)
Definition turn (pid : Z) (st : state) : state :=
  if receiving st then
    match sigs st with
    | sig :: rest =>
        {| sigs := rest;
           receiving := false;
           signalled := signalled st ++ [(pid, sig)] |}
    | [] => st
    end
  else st.

Definition step (pid : Z) (st : state) (a : action) : state :=
  match a with
  | Arrive s => deliver s st
  | Turn => turn pid st
  end.

Definition run (pid : Z) (acts : list action) : state :=
  fold_left (step pid) acts init.

(** The signals of an execution that [main] asked to be notified of. *)
Definition received (acts : list action) : list Signal :=
  omap (fun a => match a with
                 | Arrive s => if notified s then Some s else None
                 | Turn => None
                 end) acts.

(** The goroutine either still waits and has signalled nothing, or has
    returned after signalling once. *)
Definition one_shot (st : state) : Prop :=
  (receiving st = true /\ signalled st = [])
  \/ (receiving st = false /\ length (signalled st) = 1%nat).

(** Two SIGTERMs, the relay goroutine scheduled after each and once more. *)
Definition two_terms : list action :=
  [Arrive SIGTERM; Turn; Arrive SIGTERM; Turn; Turn].

End Relay.

(** ** The zombie reaper and the supervisor's wait

    [reapZombieProcesses] polls [Wait4(-1, WNOHANG)] for the whole life of
    the process, concurrently with [main], whose [cmd.Wait()] waits for the
    workload child alone.  The model is the kernel's view of init's exited
    children and the interleaving of the two waiters.  Process ids are not
    reused within an execution. *)
Module Reaper.

Inductive child_state : Type :=
| Running                  (* started, not exited *)
| Zombie                   (* exited, status not collected *)
| Collected.               (* status handed to one of the waiters *)

Inductive wait_state : Type :=
| Waiting                  (* cmd.Wait() has not returned *)
| Observed                 (* cmd.Wait() returned the child's exit status *)
| NoChild.                 (* cmd.Wait() failed: the status was already taken *)

Record state : Type := {
  child : child_state;     (* the workload child *)
  zombies : list Z;        (* other exited children of init, not yet collected *)
  reaped : list Z;         (* pids logged as "reaping zombie process" *)
  supervisor : wait_state
}.

Definition init : state :=
  {| child := Running; zombies := []; reaped := []; supervisor := Waiting |}.

Inductive action : Type :=
| ChildExits                      (* the workload child terminates *)
| OrphanExits (pid : Z)           (* another child of init terminates *)
| Poll (pick : nat)               (* one round of the reaper's loop *)
| Interrupted                     (* Wait4 returns EINTR; the inner loop retries *)
| SupervisorWait.                 (* cmd.Wait() examines the child *)

Section WithChild.

Variable child_pid : Z.         (* cmd.Process.Pid *)

(** What [Wait4(-1, ...)] may return: every exited, uncollected child. *)
Definition reapable (st : state) : list Z :=
  match child st with
  | Zombie => child_pid :: zombies st
  | _ => zombies st
  end.

Fixpoint remove_first (p : Z) (l : list Z) : list Z :=
  match l with
  | [] => []
  | q :: r => if q =? p then r else q :: remove_first p r
  end.

(** [pid, err := syscall.Wait4(-1, &wstatus, syscall.WNOHANG, nil)]: the
    kernel hands over one reapable child, [pick] standing for its choice,
    or 0 (or -1 with ECHILD) when there is none.  A positive pid is
    logged; otherwise the reaper sleeps. *)
Definition poll (pick : nat) (st : state) : state :=
  match reapable st with
  | [] => st
  | p0 :: ps =>
      let pid := nth (Nat.modulo pick (length (p0 :: ps))) (p0 :: ps) p0 in
      if pid <=? 0 then st
      else if pid =? child_pid then
        {| child := Collected;
           zombies := zombies st;
           reaped := reaped st ++ [pid];
           supervisor := supervisor st |}
      else
        {| child := child st;
           zombies := remove_first pid (zombies st);
           reaped := reaped st ++ [pid];
           supervisor := supervisor st |}
  end.

(** [cmd.Wait()]: blocks while the child runs; takes the status of the
    zombie; fails when the status is gone.  [main] ignores the result. *)
Definition supervisor_wait (st : state) : state :=
  match supervisor st, child st with
  | Waiting, Zombie =>
      {| child := Collected;
         zombies := zombies st;
         reaped := reaped st;
         supervisor := Observed |}
  | Waiting, Collected =>
      {| child := Collected;
         zombies := zombies st;
         reaped := reaped st;
         supervisor := NoChild |}
  | _, _ => st
  end.

Definition step (st : state) (a : action) : state :=
  match a with
  | ChildExits =>
      match child st with
      | Running =>
          {| child := Zombie;
             zombies := zombies st;
             reaped := reaped st;
             supervisor := supervisor st |}
      | _ => st
      end
  | OrphanExits pid =>
      if (pid <=? 0) || (pid =? child_pid) then st
      else {| child := child st;
              zombies := zombies st ++ [pid];
              reaped := reaped st;
              supervisor := supervisor st |}
  | Poll pick => poll pick st
  | Interrupted => st
  | SupervisorWait => supervisor_wait st
  end.

Definition run (acts : list action) : state := fold_left step acts init.

(** The child's status goes to one waiter: while the child is uncollected
    neither has it, and once collected either the reaper logged the pid
    or the supervisor observed the status, never both. *)
Definition one_collector (st : state) : Prop :=
  (child_pid ∉ zombies st)
  /\ match child st with
     | Running | Zombie => (child_pid ∉ reaped st) /\ supervisor st = Waiting
     | Collected =>
         ((child_pid ∈ reaped st) /\ supervisor st <> Observed)
         \/ ((child_pid ∉ reaped st) /\ supervisor st = Observed)
     end.

End WithChild.

End Reaper.

(** ** The second iteration of [main.go]

    It mounts [/proc] as the first iteration does, loads the configuration as
    the full one does except that a failed read is a panic, has no network,
    and builds the command without a lexer and without user records: the
    executable is [entrypoint.command] as it stands, the arguments are
    [strings.Split(ic.Cmd, " ")], and the uid is [strconv.Atoi] of [runAs]. *)
Module Second.

(** [strings.Split(s, " ")]: the fields of [s] between single spaces, empty
    fields included; never an empty slice. *)
Fixpoint Split (s : string) : list string :=
  match s with
  | EmptyString => [EmptyString]
  | String c r =>
      if Ascii.eqb c " " then EmptyString :: Split r
      else match Split r with
           | field :: fields => String c field :: fields
           | [] => [String c EmptyString]
           end
  end.

Fixpoint has_space (s : string) : bool :=
  match s with
  | EmptyString => false
  | String c r => Ascii.eqb c " " || has_space r
  end.

Fixpoint count_spaces (s : string) : nat :=
  match s with
  | EmptyString => 0%nat
  | String c r => ((if Ascii.eqb c " " then 1 else 0) + count_spaces r)%nat
  end.

Section Boot.

Variable w : World.

Definition load_config : M ImageConfiguration :=
  emit (ReadFile apko_json);;
  let '(b, err) := os_ReadFile w apko_json in
  match err with
  | Some e => Panicf ("failed to read /etc/apko.json: " +:+ e)
  | None => mret tt
  end;;
  match json_Unmarshal w b with
  | Err e => Panicf ("failed to unmarshal /etc/apko.json: " +:+ e)
  | Val ic => mret (ensure_PATH ic)
  end.

(** From [os.Setenv] to the finished [exec.Cmd]; the credential names a uid
    only, so its gid is the zero value. *)
Definition launcher (ic : ImageConfiguration) : M ExecCmd :=
  emit (Setenv "PATH" (lookup_env ic "PATH"));;
  match os_Setenv w "PATH" (lookup_env ic "PATH") with
  | Some e => Panicf ("failed to set PATH: " +:+ e)
  | None => mret tt
  end;;
  uid ← match Go.Atoi (RunAs (Accounts ic)) with
        | Err e => Panicf ("failed to convert run-as user: " +:+ e)
        | Val uid => mret uid
        end;
  mret {| Path := Command (Entrypoint ic);
          Args := Split (Cmd ic);
          Dir := WorkDir ic;
          Env := environ (default ∅ (Environment ic));
          Uid := Go.uint32 uid;
          Gid := 0 |}.

(** [cmd.Run()]: start, then wait. *)
Definition run_cmd (cmd : ExecCmd) : M unit :=
  emit (Start cmd);;
  match cmd_Start w cmd with
  | Err e => Panicf ("failed to run command: " +:+ e)
  | Val pid =>
      emit (Wait pid);;
      match cmd_Wait w pid with
      | Some e => Panicf ("failed to run command: " +:+ e)
      | None => mret tt
      end
  end.

Definition main : M unit :=
  Initial.mount_proc w;;
  defer (shutdown w)
    (ic ← load_config;
     cmd ← launcher ic;
     run_cmd cmd).

End Boot.

End Second.

(** ** What is observed of a run *)

(** The commands a run started, in order. *)
Definition started (t : list event) : list ExecCmd :=
  omap (fun e => match e with Start c => Some c | _ => None end) t.

(** The targets a run tried to mount, in order. *)
Definition mount_targets (t : list event) : list string :=
  omap (fun e => match e with Mount _ target _ _ => Some target | _ => None end) t.

(** A failed mount is followed at once by its log line. *)
Definition failures_logged (w : World) (t : list event) : Prop :=
  forall i source target fstype options e,
    t !! i = Some (Mount source target fstype options) ->
    mount_Mount w source target fstype options = Some e ->
    t !! S i = Some (Log ("failed to mount: " +:+ e)).

(** The shell-lexical split of a configuration string, an empty string
    contributing no tokens. *)
Definition lexical_split (w : World) (s : string) : res (list string) :=
  if String.eqb s "" then Val [] else shlex_Split w s.

(** The resolution as the specification words it: empty is root; else the
    first record matching by name or printed uid gives uid and gid; else
    "root" is root and anything else is parsed as a decimal uid, gid 0. *)
Definition reference_identity (ic : ImageConfiguration) : res (Z * Z) :=
  let runAs := RunAs (Accounts ic) in
  if String.eqb runAs "" then Val (0, 0)
  else match List.find (matches runAs) (Users (Accounts ic)) with
       | Some acct => Val (UID acct, GID acct)
       | None =>
           if String.eqb runAs "root" then Val (0, 0)
           else match Go.Atoi runAs with
                | Val uid => Val (uid, 0)
                | Err e => Err e
                end
       end.

(** ** Concrete worlds *)

Definition lo : Link := {| Name := "lo"; Flags := 1 + 4 + 32 |}.
Definition eth0 : Link := {| Name := "eth0"; Flags := 1 + 2 + 16 + 32 |}.

(** A guest in which every call succeeds; [file] is what reading the
    configuration file returns and [ic] what the decoder makes of it. *)
Definition guest (file : string * option string) (ic : ImageConfiguration) : World :=
  {| mount_Mount := fun _ _ _ _ => None;
     os_Mkdir := fun _ => None;
     os_ReadFile := fun _ => file;
     os_WriteFile := fun _ _ => None;
     os_Setenv := fun _ _ => None;
     json_decode := fun _ => Val ic;
     shlex_Split := Shlex.Split;
     netlink_LinkByName := fun _ => Val lo;
     netlink_LinkList := Val [lo; eth0];
     netlink_LinkSetUp := fun _ => None;
     dhclient_SendRequests := fun l =>
       [{| Interface := Name l; Protocol := "IPv4";
           ResultErr := None; LeaseConfigure := None |}];
     cmd_Start := fun _ => Val 2;
     cmd_Wait := fun _ => None |}.

(** The same guest with a [mount] that fails on the targets in [bad]. *)
Definition with_failing_mounts (bad : list string) (w : World) : World :=
  {| mount_Mount := fun _ target _ _ =>
       if bool_decide (target ∈ bad) then Some "operation not permitted" else None;
     os_Mkdir := os_Mkdir w;
     os_ReadFile := os_ReadFile w;
     os_WriteFile := os_WriteFile w;
     os_Setenv := os_Setenv w;
     json_decode := json_decode w;
     shlex_Split := shlex_Split w;
     netlink_LinkByName := netlink_LinkByName w;
     netlink_LinkList := netlink_LinkList w;
     netlink_LinkSetUp := netlink_LinkSetUp w;
     dhclient_SendRequests := dhclient_SendRequests w;
     cmd_Start := cmd_Start w;
     cmd_Wait := cmd_Wait w |}.

(** The same guest with a system-request file that rejects the data in [bad]. *)
Definition with_failing_writes (bad : list string) (w : World) : World :=
  {| mount_Mount := mount_Mount w;
     os_Mkdir := os_Mkdir w;
     os_ReadFile := os_ReadFile w;
     os_WriteFile := fun _ data =>
       if bool_decide (data ∈ bad) then Some "input/output error" else None;
     os_Setenv := os_Setenv w;
     json_decode := json_decode w;
     shlex_Split := shlex_Split w;
     netlink_LinkByName := netlink_LinkByName w;
     netlink_LinkList := netlink_LinkList w;
     netlink_LinkSetUp := netlink_LinkSetUp w;
     dhclient_SendRequests := dhclient_SendRequests w;
     cmd_Start := cmd_Start w;
     cmd_Wait := cmd_Wait w |}.

Definition config (ep cmd runAs : string) (users : list User)
    (env : option (gmap string string)) : ImageConfiguration :=
  {| Entrypoint := {| Command := ep |};
     Cmd := cmd;
     WorkDir := "";
     Accounts := {| RunAs := runAs; Users := users |};
     Environment := env |}.

(** [{"entrypoint":{"command":"/bin/true"},"accounts":{"run-as":"root"}}] *)
Definition true_as_root : ImageConfiguration := config "/bin/true" "" "root" [] None.

Definition present : string * option string := ("{...}", None).
Definition missing : string * option string :=
  ("", Some "open /etc/apko.json: no such file or directory").

(** The guest of [true_as_root] with a [/proc] that cannot be mounted. *)
Definition proc_denied : World :=
  with_failing_mounts ["/proc"] (guest present true_as_root).

(** A guest without a configuration file. *)
Definition no_config : World := guest missing zeroConfiguration.

Definition with_home : ImageConfiguration :=
  config "/bin/true" "" "" [] (Some {["HOME" := "/root"]}).

Definition sh_echo : ImageConfiguration :=
  config "/bin/sh -c" "'echo  hi' there" "" [] None.

Definition open_quote : ImageConfiguration :=
  ensure_PATH (config "/bin/echo 'hi" "" "" [] None).
Definition nothing_to_run : ImageConfiguration :=
  ensure_PATH (config "" "" "" [] None).

Definition toor : ImageConfiguration :=
  config "/bin/true" "" "toor" [{| UserName := "toor"; UID := 0; GID := 0 |}] None.

Definition named_1000 : ImageConfiguration :=
  config "/bin/true" "" "1000" [{| UserName := "1000"; UID := 0; GID := 7 |}] None.

Definition minus_one : ImageConfiguration :=
  ensure_PATH (config "/bin/true" "" "-1" [{| UserName := "app"; UID := 1000; GID := 1000 |}] None).

(** ** Further observations of a run *)

(** The statement sequence came to an end of its own: it returned or it
    panicked, so that deferred calls run. *)
Definition unwinds {A} (m : M A) : Prop :=
  (exists a, out m = Done a) \/ (exists msg, out m = Panicked msg).

(** The pids a run waited for, in order. *)
Definition waited (t : list event) : list Z :=
  omap (fun e => match e with Wait pid => Some pid | _ => None end) t.

(** The interfaces a run asked leases for, and those it applied a lease to. *)
Definition requested (t : list event) : list string :=
  omap (fun e => match e with SendRequests name => Some name | _ => None end) t.

Definition configured (t : list event) : list string :=
  omap (fun e => match e with Configure name => Some name | _ => None end) t.

(** The lines a run logged. *)
Definition logged (t : list event) : list string :=
  omap (fun e => match e with Log msg => Some msg | _ => None end) t.

(** A link with both capabilities [main] looks for. *)
Definition suitable (l : Link) : bool :=
  has_flag l FlagBroadcast && has_flag l FlagMulticast.

(** What a lease result makes [main] log, if anything. *)
Definition lease_failure (r : Result) : option string :=
  match ResultErr r with
  | Some e => Some (could_not r e)
  | None => could_not r <$> LeaseConfigure r
  end.

(** The interface of a result that came with a lease. *)
Definition leased (r : Result) : option string :=
  match ResultErr r with
  | Some _ => None
  | None => Some (Interface r)
  end.

(** The same guest with the links [ll] and the lease results [rs]. *)
Definition with_network (ll : list Link) (rs : list Result) (w : World) : World :=
  {| mount_Mount := mount_Mount w;
     os_Mkdir := os_Mkdir w;
     os_ReadFile := os_ReadFile w;
     os_WriteFile := os_WriteFile w;
     os_Setenv := os_Setenv w;
     json_decode := json_decode w;
     shlex_Split := shlex_Split w;
     netlink_LinkByName := netlink_LinkByName w;
     netlink_LinkList := Val ll;
     netlink_LinkSetUp := netlink_LinkSetUp w;
     dhclient_SendRequests := fun _ => rs;
     cmd_Start := cmd_Start w;
     cmd_Wait := cmd_Wait w |}.

(** A point-to-point link: up, multicast, no broadcast. *)
Definition tun0 : Link := {| Name := "tun0"; Flags := 1 + 8 + 16 |}.

(** Three lease results: no answer, a lease that applies, a lease that does
    not. *)
Definition three_results : list Result :=
  [{| Interface := "eth0"; Protocol := "IPv4";
      ResultErr := Some "timeout"; LeaseConfigure := None |};
   {| Interface := "eth0"; Protocol := "IPv4";
      ResultErr := None; LeaseConfigure := None |};
   {| Interface := "eth0"; Protocol := "IPv4";
      ResultErr := None; LeaseConfigure := Some "file exists" |}].

(** A record for uid 0 under the name "root", with a group of its own. *)
Definition zero_by_number : ImageConfiguration :=
  config "/bin/true" "" "0" [{| UserName := "app"; UID := 1000; GID := 1000 |};
                             {| UserName := "root"; UID := 0; GID := 5 |}] None.

(** A numeric [runAs] that no record carries. *)
Definition uid_65532 : ImageConfiguration :=
  ensure_PATH
    (config "/bin/true" "" "65532" [{| UserName := "app"; UID := 1000; GID := 1000 |}] None).

(** A [runAs] by name. *)
Definition as_app : ImageConfiguration :=
  ensure_PATH
    (config "/bin/true" "" "app" [{| UserName := "app"; UID := 1000; GID := 1001 |}] None).

(** The children of init other than the workload child that exited in an
    execution, in order. *)
Definition exited_orphans (child_pid : Z) (acts : list Reaper.action) : list Z :=
  omap (fun a => match a with
                 | Reaper.OrphanExits pid =>
                     if (pid <=? 0) || (pid =? child_pid) then None else Some pid
                 | _ => None
                 end) acts.

(** The workload child's pid, when its status went to the reaper. *)
Definition taken_by_reaper (child_pid : Z) (st : Reaper.state) : list Z :=
  match Reaper.child st, Reaper.supervisor st with
  | Reaper.Collected, Reaper.Observed => []
  | Reaper.Collected, _ => [child_pid]
  | _, _ => []
  end.

(** A command line with quotes and a doubled space. *)
Definition quoted_words : ImageConfiguration :=
  ensure_PATH (config "/bin/echo" "'a  b' c" "1000" [] None).

(** * Properties *)

(** ** The monad of runs *)

Lemma trace_bind {A B} (m : M A) (f : A -> M B) :
  trace (m ≫= f) = trace m ++ match out m with
                              | Done a => trace (f a)
                              | _ => []
                              end.
Proof.
  unfold mbind, M_bind. destruct (out m); simpl; auto using app_nil_r.
Qed.

Lemma out_bind_Done {A B} (m : M A) (f : A -> M B) a :
  out m = Done a -> out (m ≫= f) = out (f a).
Proof. intros H. unfold mbind, M_bind. now rewrite H. Qed.

Lemma out_bind_Panicked {A B} (m : M A) (f : A -> M B) msg :
  out m = Panicked msg -> out (m ≫= f) = Panicked msg.
Proof. intros H. unfold mbind, M_bind. now rewrite H. Qed.

Lemma started_app t1 t2 : started (t1 ++ t2) = started t1 ++ started t2.
Proof. apply omap_app. Qed.

Lemma started_bind {A B} (m : M A) (f : A -> M B) :
  started (trace m) = [] ->
  (forall a, started (trace (f a)) = []) ->
  started (trace (m ≫= f)) = [].
Proof.
  intros Hm Hf. rewrite trace_bind, started_app, Hm. simpl.
  destruct (out m); auto.
Qed.

(** ** Shutdown Sequencer *)

(** C7: [shutdown] writes the sync marker first and the power-off marker
    second; the power-off marker is only ever the second event of the run and
    is written only when the write of the sync marker succeeded; a failed write
    is logged, ends the process with status 1 and is the last write; when both
    writes succeed the function blocks for ever. *)
Theorem shutdown_sync_then_poweroff (w : World) :
  let s := WriteFile sysrq ("s" +:+ nl) in
  let o := WriteFile sysrq ("o" +:+ nl) in
  head (trace (shutdown w)) = Some s
  /\ (forall i, trace (shutdown w) !! i = Some o ->
        i = 1%nat /\ os_WriteFile w sysrq ("s" +:+ nl) = None)
  /\ (forall e, os_WriteFile w sysrq ("s" +:+ nl) = Some e ->
        shutdown w = Run [s; Log ("failed to sync " +:+ e)] (Exited 1))
  /\ (forall e, os_WriteFile w sysrq ("s" +:+ nl) = None ->
        os_WriteFile w sysrq ("o" +:+ nl) = Some e ->
        shutdown w = Run [s; o; Log ("failed to poweroff " +:+ e)] (Exited 1))
  /\ (os_WriteFile w sysrq ("s" +:+ nl) = None ->
      os_WriteFile w sysrq ("o" +:+ nl) = None ->
      shutdown w = Run [s; o] Blocked).
Proof.
  intros s o. subst s o. unfold shutdown.
  destruct (os_WriteFile w sysrq ("s" +:+ nl)) as [es|] eqn:Hs;
    [|destruct (os_WriteFile w sysrq ("o" +:+ nl)) as [eo|] eqn:Ho];
    cbn; (split; [reflexivity|]);
    (split; [intros [|[|[|[|i]]]] Hi; cbv in Hi; try discriminate Hi; now split|]);
    repeat split; intros; congruence.
Qed.

(** The run of the scenario [true_as_root]: argument vector [/bin/true],
    uid 0, and after the child's exit the two markers, [s] then [o]. *)
Example boot_true_as_root :
  main (guest present true_as_root)
  = Run [Mount "proc" "/proc" "proc" "nodev,nosuid,hidepid=2";
         Mount "devtmpfs" "/dev" "devtmpfs" "nosuid,noexec";
         Mkdir "/sys";
         Mount "sys" "/sys" "sysfs" "nodev,nosuid,noexec";
         Mount "cgroup" "/sys/fs/cgroup" "cgroup" "all";
         Mount "tmpfs" "/tmp" "tmpfs" "nodev,nosuid,noexec";
         ReadFile apko_json;
         LinkByName "lo"; LinkSetUp "lo"; LinkList; LinkSetUp "eth0";
         SendRequests "eth0"; Configure "eth0";
         Log "Finished trying to configure all interfaces.";
         Setenv "PATH" defaultPath;
         Start {| Path := "/bin/true"; Args := []; Dir := "";
                  Env := ["PATH=" +:+ defaultPath]; Uid := 0; Gid := 0 |};
         Wait 2;
         WriteFile sysrq ("s" +:+ nl);
         WriteFile sysrq ("o" +:+ nl)] Blocked.
Proof. vm_compute. reflexivity. Qed.

(** A system-request file that refuses the sync marker: one write, the
    fatal log line, exit status 1, and no power-off marker. *)
Example shutdown_sync_refused :
  shutdown (with_failing_writes ["s" +:+ nl] (guest present true_as_root))
  = Run [WriteFile sysrq ("s" +:+ nl); Log "failed to sync input/output error"]
        (Exited 1).
Proof. reflexivity. Qed.

(** ** Boot Environment Setup *)

(** C6, as stated, fails: with a [/proc] mount that is refused, [main] logs the
    failure, goes on to the other four mounts and in the end starts the
    workload. *)
Lemma proc_mount_failure_is_not_fatal :
  mount_Mount proc_denied "proc" "/proc" "proc" "nodev,nosuid,hidepid=2"
    = Some "operation not permitted"
  /\ mount_proc proc_denied
     = Run [Mount "proc" "/proc" "proc" "nodev,nosuid,hidepid=2";
            Log "failed to mount: operation not permitted"] (Done tt)
  /\ mount_targets (trace (main proc_denied))
     = ["/proc"; "/dev"; "/sys"; "/sys/fs/cgroup"; "/tmp"]
  /\ length (started (trace (main proc_denied))) = 1%nat.
Proof. vm_compute. repeat split. Qed.

Lemma failures_logged_app w t1 t2 :
  failures_logged w t1 -> failures_logged w t2 -> failures_logged w (t1 ++ t2).
Proof.
  intros L1 L2 i source target fstype options e Hi He.
  destruct (decide (i < length t1)%nat) as [Hlt|Hge].
  - rewrite lookup_app_l in Hi by exact Hlt.
    apply lookup_app_l_Some. eapply L1; eauto.
  - rewrite lookup_app_r in Hi by lia.
    rewrite lookup_app_r by lia.
    replace (S i - length t1)%nat with (S (i - length t1)) by lia.
    eapply L2; eauto.
Qed.

Lemma failures_logged_other w e :
  match e with Mount _ _ _ _ => False | _ => True end ->
  failures_logged w [e].
Proof.
  intros He [|[|i]] source target fstype options e' Hi; cbn in Hi;
    try discriminate Hi.
  injection Hi as ->. contradiction.
Qed.

Lemma failures_logged_nil w : failures_logged w [].
Proof. intros i source target fstype options e Hi. discriminate Hi. Qed.

Lemma try_mount_out w source target fstype options :
  out (try_mount w source target fstype options) = Done tt.
Proof. unfold try_mount. now destruct (mount_Mount w _ _ _ _). Qed.

Lemma try_mount_trace w source target fstype options :
  trace (try_mount w source target fstype options)
  = Mount source target fstype options
    :: match mount_Mount w source target fstype options with
       | Some e => [Log ("failed to mount: " +:+ e)]
       | None => []
       end.
Proof. unfold try_mount. now destruct (mount_Mount w _ _ _ _). Qed.

Lemma try_mount_logged w source target fstype options :
  failures_logged w (trace (try_mount w source target fstype options)).
Proof.
  rewrite try_mount_trace.
  intros [|[|i]] s' t' f' o' e Hi He; cbn in Hi.
  - injection Hi as <- <- <- <-. now rewrite He.
  - destruct (mount_Mount w source target fstype options); discriminate Hi.
  - destruct (mount_Mount w source target fstype options); discriminate Hi.
Qed.

Lemma bind_logged {A B} w (m : M A) (f : A -> M B) :
  failures_logged w (trace m) ->
  (forall a, failures_logged w (trace (f a))) ->
  failures_logged w (trace (m ≫= f)).
Proof.
  intros Hm Hf. rewrite trace_bind. apply failures_logged_app; [exact Hm|].
  destruct (out m); auto using failures_logged_nil.
Qed.

Lemma mounts_logged w : failures_logged w (trace (mount_proc w;; mount_rest w)).
Proof.
  unfold mount_proc, mount_rest.
  apply bind_logged; [apply try_mount_logged | intros _].
  apply bind_logged; [apply try_mount_logged | intros _].
  apply bind_logged; [apply failures_logged_other; exact I | intros _].
  apply bind_logged; [|intros _].
  - destruct (os_Mkdir w "/sys");
      [apply failures_logged_other; exact I | apply try_mount_logged].
  - apply bind_logged; [apply try_mount_logged | intros _].
    apply try_mount_logged.
Qed.

Lemma mkdir_sys_out w :
  out match os_Mkdir w "/sys" with
      | Some err => Printf ("failed to create /sys: " +:+ err)
      | None => try_mount w "sys" "/sys" "sysfs" "nodev,nosuid,noexec"
      end = Done tt.
Proof. destruct (os_Mkdir w "/sys"); [reflexivity | apply try_mount_out]. Qed.

Lemma mount_rest_out w : out (mount_rest w) = Done tt.
Proof.
  unfold mount_rest.
  rewrite (out_bind_Done _ _ tt) by apply try_mount_out.
  rewrite (out_bind_Done _ _ tt) by reflexivity.
  rewrite (out_bind_Done _ _ tt) by apply mkdir_sys_out.
  rewrite (out_bind_Done _ _ tt) by apply try_mount_out.
  apply try_mount_out.
Qed.

Lemma mounts_targets w :
  mount_targets (trace (mount_proc w;; mount_rest w))
  = ["/proc"; "/dev"]
    ++ match os_Mkdir w "/sys" with None => ["/sys"] | Some _ => [] end
    ++ ["/sys/fs/cgroup"; "/tmp"].
Proof.
  unfold mount_proc, mount_rest, mount_targets.
  rewrite !trace_bind, !omap_app, !try_mount_out, mkdir_sys_out, !try_mount_trace.
  destruct (os_Mkdir w "/sys"); rewrite ?try_mount_trace;
    repeat match goal with
           | |- context [mount_Mount w ?a ?b ?c ?d] =>
               destruct (mount_Mount w a b c d)
           end; reflexivity.
Qed.

(** C6, amended: in [main] no mount failure stops boot, the one of [/proc]
    included: the mounts are tried in their fixed order ([/sys] only when its
    directory could be created), and each failed mount is followed at once by
    its log line.  Only the first iteration of the program, which mounts
    [/proc] alone, ends the process on that failure. *)
Theorem mount_failures_are_logged (w : World) :
  let m := mount_proc w;; mount_rest w in
  out m = Done tt
  /\ mount_targets (trace m)
     = ["/proc"; "/dev"]
       ++ match os_Mkdir w "/sys" with None => ["/sys"] | Some _ => [] end
       ++ ["/sys/fs/cgroup"; "/tmp"]
  /\ (forall i source target fstype options e,
        trace m !! i = Some (Mount source target fstype options) ->
        mount_Mount w source target fstype options = Some e ->
        trace m !! S i = Some (Log ("failed to mount: " +:+ e)))
  /\ (forall e,
        mount_Mount w "proc" "/proc" "proc" "nodev,nosuid,hidepid=2" = Some e ->
        Initial.mount_proc w
        = Run [Mount "proc" "/proc" "proc" "nodev,nosuid,hidepid=2";
               Log ("failed to mount: " +:+ e)] (Exited 1)).
Proof.
  intros m. subst m.
  split; [|split; [apply mounts_targets|split; [apply mounts_logged|]]].
  - unfold mount_proc.
    rewrite (out_bind_Done _ _ tt) by apply try_mount_out.
    apply mount_rest_out.
  - intros e He. unfold Initial.mount_proc. now rewrite He.
Qed.

(** ** Configuration Loader *)

Lemma load_config_parsed w ic :
  json_Unmarshal w (fst (os_ReadFile w apko_json)) = Val ic ->
  out (load_config w) = Done (ensure_PATH ic).
Proof.
  unfold load_config. destruct (os_ReadFile w apko_json) as [b [e|]]; cbn;
    intros ->; reflexivity.
Qed.

(** Whatever the document, a failed read with no bytes ends in the decoder's
    panic. *)
Lemma unreadable_config_panics w e :
  os_ReadFile w apko_json = ("", Some e) ->
  load_config w
  = Run [ReadFile apko_json;
         Log ("failed to read /etc/apko.json: " +:+ e);
         Log "failed to unmarshal /etc/apko.json: unexpected end of JSON input"]
        (Panicked "failed to unmarshal /etc/apko.json: unexpected end of JSON input").
Proof. unfold load_config. intros ->. reflexivity. Qed.

(** C3, at the failing input: with the configuration file missing, the read
    failure is logged, and the decoder, handed no bytes, reports a syntax error
    on which [main] panics.  Boot ends there: the network is not brought up,
    no launch is attempted, and the deferred [shutdown] powers the guest off. *)
Theorem missing_config_panics_at_load :
  os_ReadFile no_config apko_json
    = ("", Some "open /etc/apko.json: no such file or directory")
  /\ load_config no_config
     = Run [ReadFile apko_json;
            Log "failed to read /etc/apko.json: open /etc/apko.json: no such file or directory";
            Log "failed to unmarshal /etc/apko.json: unexpected end of JSON input"]
           (Panicked "failed to unmarshal /etc/apko.json: unexpected end of JSON input")
  /\ out (boot no_config)
     = Panicked "failed to unmarshal /etc/apko.json: unexpected end of JSON input"
  /\ main no_config
     = Run [Mount "proc" "/proc" "proc" "nodev,nosuid,hidepid=2";
            Mount "devtmpfs" "/dev" "devtmpfs" "nosuid,noexec";
            Mkdir "/sys";
            Mount "sys" "/sys" "sysfs" "nodev,nosuid,noexec";
            Mount "cgroup" "/sys/fs/cgroup" "cgroup" "all";
            Mount "tmpfs" "/tmp" "tmpfs" "nodev,nosuid,noexec";
            ReadFile apko_json;
            Log "failed to read /etc/apko.json: open /etc/apko.json: no such file or directory";
            Log "failed to unmarshal /etc/apko.json: unexpected end of JSON input";
            WriteFile sysrq ("s" +:+ nl);
            WriteFile sysrq ("o" +:+ nl)] Blocked.
Proof. repeat split. Qed.

(** C9: when the document parses, the loaded configuration has an environment
    with a [PATH] entry: the default search path when the parsed environment
    (taken as empty when absent) has none, its own value otherwise; every
    other entry is as parsed. *)
Theorem loaded_environment_has_PATH (w : World) (ic : ImageConfiguration) :
  json_Unmarshal w (fst (os_ReadFile w apko_json)) = Val ic ->
  exists ic' env,
    out (load_config w) = Done ic'
    /\ Environment ic' = Some env
    /\ (default ∅ (Environment ic) !! "PATH" = None ->
        env !! "PATH" = Some defaultPath)
    /\ (forall v, default ∅ (Environment ic) !! "PATH" = Some v ->
        env !! "PATH" = Some v)
    /\ (forall k, k <> "PATH" -> env !! k = default ∅ (Environment ic) !! k).
Proof.
  intros Hparse. apply load_config_parsed in Hparse.
  eexists _, _. split; [exact Hparse|]. split; [reflexivity|].
  destruct (Environment ic) as [m|]; cbn.
  - destruct (m !! "PATH") as [v0|] eqn:Hp.
    + split; [discriminate|]. split; [intros v Hv; congruence|]. reflexivity.
    + split; [intros _; apply lookup_insert_eq|].
      split; [discriminate|]. intros k Hk. now apply lookup_insert_ne.
  - split; [intros _; apply lookup_insert_eq|].
    split; [intros v Hv; rewrite lookup_empty in Hv; discriminate|].
    intros k Hk. now apply lookup_insert_ne.
Qed.

Lemma loaded_environment_has_PATH_witness :
  json_Unmarshal (guest present with_home)
    (fst (os_ReadFile (guest present with_home) apko_json)) = Val with_home
  /\ exists ic' env,
    out (load_config (guest present with_home)) = Done ic'
    /\ Environment ic' = Some env
    /\ (default ∅ (Environment with_home) !! "PATH" = None ->
        env !! "PATH" = Some defaultPath)
    /\ (forall v, default ∅ (Environment with_home) !! "PATH" = Some v ->
        env !! "PATH" = Some v)
    /\ (forall k, k <> "PATH" -> env !! k = default ∅ (Environment with_home) !! k).
Proof.
  split; [reflexivity|].
  apply (loaded_environment_has_PATH (guest present with_home) with_home).
  reflexivity.
Defined.

(** ** Workload Launcher: the argument vector *)

Lemma split_args_ok w ic ep cm :
  lexical_split w (Command (Entrypoint ic)) = Val ep ->
  lexical_split w (Cmd ic) = Val cm ->
  split_args w ic = Run [] (Done (ep ++ cm)).
Proof.
  unfold lexical_split, split_args. intros Hep Hcm.
  destruct (String.eqb (Command (Entrypoint ic)) "").
  - injection Hep as <-. cbn.
    destruct (String.eqb (Cmd ic) "").
    + now injection Hcm as <-.
    + now rewrite Hcm.
  - rewrite Hep. cbn.
    destruct (String.eqb (Cmd ic) "").
    + injection Hcm as <-. now rewrite app_nil_r.
    + now rewrite Hcm.
Qed.

Lemma launcher_args w ic args cmd :
  out (split_args w ic) = Done args ->
  out (launcher w ic) = Done cmd ->
  Path cmd :: Args cmd = args.
Proof.
  unfold launcher. intros Hargs.
  destruct (os_Setenv w "PATH" (lookup_env ic "PATH")); [discriminate|].
  rewrite (out_bind_Done _ _ tt) by reflexivity; cbv beta.
  rewrite (out_bind_Done _ _ tt) by reflexivity; cbv beta.
  rewrite (out_bind_Done _ _ args) by exact Hargs; cbv beta.
  destruct args as [|a rest]; [discriminate|].
  rewrite (out_bind_Done _ _ (a, rest)) by reflexivity; cbv beta.
  destruct (out (run_as ic)) as [ug| | |] eqn:Hug.
  - rewrite (out_bind_Done _ _ ug) by exact Hug. cbn. now intros [= <-].
  - erewrite out_bind_Panicked by exact Hug. discriminate.
  - unfold mbind, M_bind. rewrite Hug. discriminate.
  - unfold mbind, M_bind. rewrite Hug. discriminate.
Qed.

(** For the lexer modelled in [Shlex] the empty string has no tokens of its
    own accord. *)
Lemma lexical_split_shlex file ic s :
  lexical_split (guest file ic) s = Shlex.Split s.
Proof. unfold lexical_split. now destruct s. Qed.

(** C5: when both strings split without error, the argument vector is the
    split of [entrypoint.command] followed by the split of [cmd], an empty
    string contributing no tokens, and it is the vector the command is built
    from; with a non-empty [entrypoint.command] and an empty [cmd] it is the
    lexer's split of [entrypoint.command] alone. *)
Theorem args_are_entrypoint_then_cmd (w : World) (ic : ImageConfiguration)
    (ep cm : list string) :
  lexical_split w (Command (Entrypoint ic)) = Val ep ->
  lexical_split w (Cmd ic) = Val cm ->
  split_args w ic = Run [] (Done (ep ++ cm))
  /\ (forall cmd, out (launcher w ic) = Done cmd -> Path cmd :: Args cmd = ep ++ cm)
  /\ (Command (Entrypoint ic) <> "" -> Cmd ic = "" ->
      shlex_Split w (Command (Entrypoint ic)) = Val ep
      /\ split_args w ic = Run [] (Done ep)).
Proof.
  intros Hep Hcm.
  pose proof (split_args_ok w ic ep cm Hep Hcm) as Hargs.
  split; [exact Hargs|]. split.
  - intros cmd. apply launcher_args. now rewrite Hargs.
  - intros Hne Hempty. unfold lexical_split in Hep, Hcm.
    apply String.eqb_neq in Hne. rewrite Hne in Hep.
    rewrite Hempty in Hcm. cbn in Hcm. injection Hcm as <-.
    rewrite app_nil_r in Hargs. auto.
Qed.

Lemma args_are_entrypoint_then_cmd_witness :
  lexical_split (guest present sh_echo) (Command (Entrypoint sh_echo))
    = Val ["/bin/sh"; "-c"]
  /\ lexical_split (guest present sh_echo) (Cmd sh_echo) = Val ["echo  hi"; "there"]
  /\ split_args (guest present sh_echo) sh_echo
     = Run [] (Done ["/bin/sh"; "-c"; "echo  hi"; "there"]).
Proof.
  split; [reflexivity|]. split; [reflexivity|].
  apply (args_are_entrypoint_then_cmd (guest present sh_echo) sh_echo
           ["/bin/sh"; "-c"] ["echo  hi"; "there"]); reflexivity.
Defined.

(** ** Workload Launcher: fatal aborts before the start *)

Lemma started_bind_eq {A B} (m : M A) (f : A -> M B) :
  started (trace (m ≫= f))
  = started (trace m) ++ match out m with
                         | Done a => started (trace (f a))
                         | _ => []
                         end.
Proof. rewrite trace_bind, started_app. now destruct (out m). Qed.

Ltac no_start :=
  repeat first
    [ reflexivity
    | apply started_bind; [|intros]
    | match goal with
      | |- context [match ?x with _ => _ end] => destruct x
      end ].

Lemma try_mount_started w source target fstype options :
  started (trace (try_mount w source target fstype options)) = [].
Proof. rewrite try_mount_trace. now destruct (mount_Mount w _ _ _ _). Qed.

Lemma mount_rest_started w : started (trace (mount_rest w)) = [].
Proof.
  unfold mount_rest.
  repeat (apply started_bind; [|intros _]);
    try apply try_mount_started; try reflexivity.
  destruct (os_Mkdir w "/sys"); [reflexivity | apply try_mount_started].
Qed.

Lemma load_config_started w : started (trace (load_config w)) = [].
Proof. unfold load_config. no_start. Qed.

Lemma configure_all_started rs : started (trace (configure_all rs)) = [].
Proof.
  induction rs as [|r rs IH]; [reflexivity|]. cbn [configure_all].
  apply started_bind; [|intros _; exact IH]. no_start.
Qed.

Lemma configure_all_out rs : out (configure_all rs) = Done tt.
Proof.
  induction rs as [|r rs IH]; [reflexivity|]. cbn [configure_all].
  erewrite out_bind_Done; [exact IH|].
  destruct (ResultErr r); [reflexivity|].
  destruct (LeaseConfigure r); reflexivity.
Qed.

Lemma network_started w : started (trace (network w)) = [].
Proof.
  unfold network.
  apply started_bind; [reflexivity|intros _].
  apply started_bind; [no_start|intros _].
  apply started_bind; [reflexivity|intros _].
  destruct (netlink_LinkList w) as [ll|e]; [|reflexivity].
  destruct (select_link ll) as [eth|]; [|reflexivity].
  apply started_bind; [reflexivity|intros _].
  destruct (netlink_LinkSetUp w eth); [reflexivity|].
  apply started_bind; [reflexivity|intros _].
  apply started_bind; [apply configure_all_started|intros _]. reflexivity.
Qed.

Lemma network_out w :
  out (network w) = Done tt \/ exists msg, out (network w) = Panicked msg.
Proof.
  unfold network.
  rewrite (out_bind_Done _ _ tt) by reflexivity; cbv beta.
  destruct (netlink_LinkByName w "lo") as [l|e]; [|right; eexists; reflexivity].
  destruct (netlink_LinkSetUp w l); [right; eexists; reflexivity|].
  rewrite (out_bind_Done _ _ tt) by reflexivity; cbv beta.
  rewrite (out_bind_Done _ _ tt) by reflexivity; cbv beta.
  destruct (netlink_LinkList w) as [ll|e]; [|right; eexists; reflexivity].
  destruct (select_link ll) as [eth|]; [|right; eexists; reflexivity].
  rewrite (out_bind_Done _ _ tt) by reflexivity; cbv beta.
  destruct (netlink_LinkSetUp w eth); [right; eexists; reflexivity|].
  rewrite (out_bind_Done _ _ tt) by reflexivity; cbv beta.
  rewrite (out_bind_Done _ _ tt) by apply configure_all_out. now left.
Qed.

Lemma shutdown_started w : started (trace (shutdown w)) = [].
Proof. unfold shutdown. no_start. Qed.

Lemma split_args_started w ic : started (trace (split_args w ic)) = [].
Proof. unfold split_args. no_start. Qed.

Lemma run_as_started ic : started (trace (run_as ic)) = [].
Proof. unfold run_as. no_start. Qed.

(** The launcher builds the command; it never starts it. *)
Lemma launcher_started w ic : started (trace (launcher w ic)) = [].
Proof.
  unfold launcher.
  apply started_bind; [reflexivity|intros _].
  apply started_bind; [no_start|intros _].
  apply started_bind; [apply split_args_started|intros args].
  apply started_bind; [destruct args; reflexivity|intros [path rest]].
  apply started_bind; [apply run_as_started|intros ug]. reflexivity.
Qed.

Lemma trace_defer {A} (d : M unit) (body : M A) :
  trace (defer d body)
  = trace body ++ match out body with
                  | Done _ | Panicked _ => trace d
                  | _ => []
                  end.
Proof. unfold defer. destruct (out body); cbn; auto using app_nil_r. Qed.

(** A launcher that panics leaves the whole run without a started command. *)
Lemma main_without_start w ic msg :
  out (load_config w) = Done ic ->
  out (launcher w ic) = Panicked msg ->
  started (trace (main w)) = [] /\ exists msg', out (boot w) = Panicked msg'.
Proof.
  intros Hload Hlaunch.
  assert (Hrest : started (trace (cmd ← launcher w ic; supervise w cmd)) = []
                  /\ out (cmd ← launcher w ic; supervise w cmd) = Panicked msg).
  { rewrite started_bind_eq, launcher_started, Hlaunch.
    split; [reflexivity|]. now apply out_bind_Panicked. }
  destruct Hrest as [Hs Ho].
  assert (Hboot : started (trace (boot w)) = []
                  /\ exists msg', out (boot w) = Panicked msg').
  { unfold boot.
    rewrite started_bind_eq, mount_rest_started, mount_rest_out.
    rewrite (out_bind_Done _ _ tt) by apply mount_rest_out; cbv beta.
    rewrite started_bind_eq, load_config_started, Hload.
    rewrite (out_bind_Done _ _ ic) by exact Hload; cbv beta.
    rewrite started_bind_eq, network_started.
    destruct (network_out w) as [Hn|[m Hn]].
    - rewrite Hn. rewrite (out_bind_Done _ _ tt) by exact Hn; cbv beta.
      rewrite Hs. split; [reflexivity|]. now exists msg.
    - rewrite Hn. split; [reflexivity|]. exists m. now apply out_bind_Panicked. }
  destruct Hboot as [Hb [msg' Hp]].
  split; [|now exists msg'].
  unfold main, mount_proc.
  rewrite started_bind_eq, try_mount_started, try_mount_out.
  rewrite trace_defer, started_app, Hb, Hp. apply shutdown_started.
Qed.

Lemma launcher_panics_on_args w ic msg :
  out (split_args w ic) = Panicked msg \/ out (split_args w ic) = Done [] ->
  exists msg', out (launcher w ic) = Panicked msg'.
Proof.
  intros Hargs. unfold launcher.
  rewrite (out_bind_Done _ _ tt) by reflexivity; cbv beta.
  destruct (os_Setenv w "PATH" (lookup_env ic "PATH")); [eexists; reflexivity|].
  rewrite (out_bind_Done _ _ tt) by reflexivity; cbv beta.
  destruct Hargs as [Hp|Hn].
  - exists msg. now apply out_bind_Panicked.
  - rewrite (out_bind_Done _ _ []) by exact Hn; cbv beta.
    eexists. reflexivity.
Qed.

Lemma split_args_outcome w ic :
  (Command (Entrypoint ic) = "" /\ Cmd ic = "")
  \/ out (split_args w ic) = Done []
  \/ (Command (Entrypoint ic) <> "" /\
      exists e, shlex_Split w (Command (Entrypoint ic)) = Err e)
  \/ (Cmd ic <> "" /\ exists e, shlex_Split w (Cmd ic) = Err e) ->
  (exists msg, out (split_args w ic) = Panicked msg)
  \/ out (split_args w ic) = Done [].
Proof.
  intros [[Hep Hcm]|[Hnil|[[Hep [e He]]|[Hcm [e He]]]]].
  - right. unfold split_args. now rewrite Hep, Hcm.
  - now right.
  - left. unfold split_args. apply String.eqb_neq in Hep. rewrite Hep, He.
    eexists. reflexivity.
  - left. unfold split_args. apply String.eqb_neq in Hcm. rewrite Hcm, He.
    destruct (String.eqb (Command (Entrypoint ic)) "").
    + eexists. reflexivity.
    + destruct (shlex_Split w (Command (Entrypoint ic))); eexists; reflexivity.
Qed.

(** C8: a configuration whose argument vector comes out empty (in particular
    one with empty [entrypoint.command] and empty [cmd]), and one whose
    [entrypoint.command] or [cmd] the lexer rejects, makes the launcher panic;
    the run of [main] on it contains no start of a process, and the part of
    [main] under the deferred [shutdown] ends in a panic. *)
Theorem launcher_aborts_without_start (w : World) (ic : ImageConfiguration) :
  (Command (Entrypoint ic) = "" /\ Cmd ic = "")
  \/ out (split_args w ic) = Done []
  \/ (Command (Entrypoint ic) <> "" /\
      exists e, shlex_Split w (Command (Entrypoint ic)) = Err e)
  \/ (Cmd ic <> "" /\ exists e, shlex_Split w (Cmd ic) = Err e) ->
  (exists msg, out (launcher w ic) = Panicked msg)
  /\ started (trace (launcher w ic)) = []
  /\ (out (load_config w) = Done ic ->
      started (trace (main w)) = [] /\ exists msg, out (boot w) = Panicked msg).
Proof.
  intros H. apply split_args_outcome in H.
  assert (Hl : exists msg, out (launcher w ic) = Panicked msg).
  { destruct H as [[msg Hp]|Hn].
    - apply (launcher_panics_on_args w ic msg). now left.
    - apply (launcher_panics_on_args w ic ""). now right. }
  split; [exact Hl|]. split; [apply launcher_started|].
  intros Hload. destruct Hl as [msg Hl].
  exact (main_without_start w ic msg Hload Hl).
Qed.

Lemma launcher_aborts_without_start_witness :
  (shlex_Split (guest present open_quote) (Command (Entrypoint open_quote))
     = Err "EOF found when expecting closing quote"
   /\ (exists msg, out (launcher (guest present open_quote) open_quote) = Panicked msg)
   /\ started (trace (main (guest present open_quote))) = [])
  /\ (Command (Entrypoint nothing_to_run) = "" /\ Cmd nothing_to_run = ""
      /\ (exists msg,
            out (launcher (guest present nothing_to_run) nothing_to_run) = Panicked msg)
      /\ started (trace (main (guest present nothing_to_run))) = []).
Proof.
  split.
  - split; [reflexivity|].
    destruct (launcher_aborts_without_start (guest present open_quote) open_quote)
      as (Hp & _ & Hm).
    + right. right. left. split; [discriminate|]. eexists. reflexivity.
    + split; [exact Hp|]. apply Hm. reflexivity.
  - split; [reflexivity|]. split; [reflexivity|].
    destruct (launcher_aborts_without_start (guest present nothing_to_run)
                nothing_to_run) as (Hp & _ & Hm).
    + left. split; reflexivity.
    + split; [exact Hp|]. apply Hm. reflexivity.
Defined.

(** ** Workload Launcher: the run-as identity *)

Lemma search_users_find runAs users uid gid :
  search_users runAs users uid gid
  = match List.find (matches runAs) users with
    | Some acct => (UID acct, GID acct)
    | None => (uid, gid)
    end.
Proof.
  induction users as [|acct rest IH]; [reflexivity|].
  cbn [search_users List.find]. unfold matches at 1.
  destruct (String.eqb (UserName acct) runAs || String.eqb (Go.Sprint (UID acct)) runAs);
    [reflexivity | exact IH].
Qed.

(** Where the code and the reference agree: everywhere except on a matching
    record whose uid is 0 under a name other than "root". *)
Lemma run_as_agrees_with_reference ic :
  (forall acct, List.find (matches (RunAs (Accounts ic))) (Users (Accounts ic)) = Some acct ->
                UID acct <> 0 \/ RunAs (Accounts ic) = "root") ->
  match reference_identity ic with
  | Val ug => run_as ic = Run [] (Done ug)
  | Err e => out (run_as ic) = Panicked ("failed to convert run-as user: " +:+ e)
  end.
Proof.
  intros Hnz. unfold reference_identity, run_as.
  destruct (String.eqb (RunAs (Accounts ic)) "") eqn:Hempty; [reflexivity|].
  cbn [negb]. rewrite search_users_find.
  destruct (List.find _ _) as [acct|] eqn:Hfind.
  - destruct (Hnz acct eq_refl) as [Hu|Hr].
    + apply Z.eqb_neq in Hu. now rewrite Hu.
    + rewrite Hr. cbn. now rewrite andb_false_r.
  - cbn. destruct (String.eqb (RunAs (Accounts ic)) "root"); [reflexivity|].
    cbn. destruct (Go.Atoi (RunAs (Accounts ic))); reflexivity.
Qed.

(** C4, at the failing input: [runAs] names a user record whose uid is 0 under
    a name other than "root".  The reference resolution gives that record's uid
    and gid; the code takes its own [uid == 0] for "no record matched", parses
    the name as a number and panics.  When the name also parses, as for the
    record named "1000", the parsed number replaces the record's uid. *)
Theorem run_as_uid0_record_is_reparsed :
  reference_identity toor = Val (0, 0)
  /\ run_as toor
     = Run [Log ("failed to convert run-as user: strconv.Atoi: parsing "
                 +:+ String Go.dquote "toor" +:+ String Go.dquote ": invalid syntax")]
           (Panicked ("failed to convert run-as user: strconv.Atoi: parsing "
                      +:+ String Go.dquote "toor" +:+ String Go.dquote ": invalid syntax"))
  /\ reference_identity named_1000 = Val (0, 7)
  /\ run_as named_1000 = Run [] (Done (1000, 7)).
Proof. repeat split. Qed.

Lemma search_users_no_match runAs users uid gid :
  Forall (fun acct => matches runAs acct = false) users ->
  search_users runAs users uid gid = (uid, gid).
Proof.
  intros Hno. rewrite search_users_find.
  destruct (List.find (matches runAs) users) as [acct|] eqn:Hfind; [|reflexivity].
  apply List.find_some in Hfind as [Hin Hm].
  rewrite Forall_forall in Hno. apply list_elem_of_In in Hin.
  rewrite (Hno acct Hin) in Hm. discriminate.
Qed.

(** C10: a [runAs] that matches no user record, is not "root" and parses to a
    negative integer does not abort the launcher: the resolved pair is that
    integer and gid 0, and the credential carries the integer modulo 2^32, a
    value within [uint32]; whenever PATH can be set and the argument vector is
    not empty, the launcher returns a command with that credential. *)
Theorem negative_run_as_wraps (w : World) (ic : ImageConfiguration) (n : Z) :
  Forall (fun acct => matches (RunAs (Accounts ic)) acct = false) (Users (Accounts ic)) ->
  RunAs (Accounts ic) <> "root" ->
  Go.Atoi (RunAs (Accounts ic)) = Val n ->
  n < 0 ->
  run_as ic = Run [] (Done (n, 0))
  /\ credential (n, 0) = (n mod 2 ^ 32, 0)
  /\ 0 <= n mod 2 ^ 32 < 2 ^ 32
  /\ (forall a rest,
        os_Setenv w "PATH" (lookup_env ic "PATH") = None ->
        out (split_args w ic) = Done (a :: rest) ->
        exists cmd, out (launcher w ic) = Done cmd
                    /\ Uid cmd = n mod 2 ^ 32 /\ Gid cmd = 0).
Proof.
  intros Hno Hroot Hparse Hneg.
  assert (Hrun : run_as ic = Run [] (Done (n, 0))).
  { unfold run_as.
    destruct (String.eqb (RunAs (Accounts ic)) "") eqn:Hempty.
    - apply String.eqb_eq in Hempty. rewrite Hempty in Hparse. discriminate.
    - cbn [negb]. rewrite (search_users_no_match _ _ _ _ Hno).
      apply String.eqb_neq in Hroot. rewrite Hroot. cbn. now rewrite Hparse. }
  split; [exact Hrun|]. split; [reflexivity|].
  split; [apply Z.mod_pos_bound; lia|].
  intros a rest Henv Hargs. unfold launcher. rewrite Henv.
  rewrite (out_bind_Done _ _ tt) by reflexivity; cbv beta.
  rewrite (out_bind_Done _ _ tt) by reflexivity; cbv beta.
  rewrite (out_bind_Done _ _ (a :: rest)) by exact Hargs; cbv beta.
  rewrite (out_bind_Done _ _ (a, rest)) by reflexivity; cbv beta.
  rewrite Hrun. eexists. split; [reflexivity|]. split; reflexivity.
Qed.

Lemma negative_run_as_wraps_witness :
  Go.Atoi (RunAs (Accounts minus_one)) = Val (-1)
  /\ run_as minus_one = Run [] (Done (-1, 0))
  /\ credential (-1, 0) = (4294967295, 0)
  /\ exists cmd, out (launcher (guest present minus_one) minus_one) = Done cmd
                 /\ Uid cmd = 4294967295 /\ Gid cmd = 0.
Proof.
  split; [reflexivity|].
  destruct (negative_run_as_wraps (guest present minus_one) minus_one (-1))
    as (Hrun & Hcred & _ & Hcmd).
  - repeat constructor.
  - discriminate.
  - reflexivity.
  - lia.
  - split; [exact Hrun|]. split; [exact Hcred|].
    apply (Hcmd "/bin/true" []); reflexivity.
Defined.

(** ** Supervisor Loop: the signal relay *)

Module RelayFacts.
Import Relay.

Lemma step_one_shot pid st a : one_shot st -> one_shot (step pid st a).
Proof.
  intros Hst. destruct a as [s|]; cbn.
  - unfold deliver. destruct (notified s && _); exact Hst.
  - unfold turn. destruct Hst as [[Hr Hs]|[Hr Hs]]; rewrite Hr.
    + destruct (sigs st) as [|sig rest].
      * left. now split.
      * right. cbn. rewrite Hs. now split.
    + right. now split.
Qed.

Lemma fold_one_shot pid acts st :
  one_shot st -> one_shot (fold_left (step pid) acts st).
Proof.
  revert st. induction acts as [|a acts IH]; intros st Hst; [exact Hst|].
  cbn. apply IH. now apply step_one_shot.
Qed.

(** However many signals arrive, at most one is ever passed on. *)
Lemma at_most_one_signal_relayed pid acts :
  (length (signalled (run pid acts)) <= 1)%nat.
Proof.
  destruct (fold_one_shot pid acts init) as [[_ Hs]|[_ Hs]].
  - left. now split.
  - unfold run. rewrite Hs. cbn. lia.
  - unfold run. rewrite Hs. lia.
Qed.




(** C2, at the failing input: the child (pid 2) runs, SIGTERM arrives, the
    relay goroutine passes it on and returns; a second SIGTERM arrives and
    stays in the channel, however often the scheduler looks for someone to
    receive it.  Two signals were received and one was forwarded. *)
Theorem second_signal_is_not_relayed :
  received two_terms = [SIGTERM; SIGTERM]
  /\ signalled (run 2 two_terms) = [(2, SIGTERM)]
  /\ sigs (run 2 two_terms) = [SIGTERM]
  /\ receiving (run 2 two_terms) = false.
Proof. repeat split. Qed.

End RelayFacts.

(** ** Zombie Reaper against the supervisor's wait *)

Module ReaperFacts.
Import Reaper.

(** C1, as stated, fails: the child (pid 2) exits and the reaper's next
    poll collects it and logs its pid while [cmd.Wait()] has observed
    nothing; when the supervisor's wait then runs, the status is gone. *)
Lemma reaper_collects_child_first :
  reaped (run 2 [ChildExits; Poll 0]) = [2]
  /\ supervisor (run 2 [ChildExits; Poll 0]) = Waiting
  /\ supervisor (run 2 [ChildExits; Poll 0; SupervisorWait]) = NoChild.
Proof. repeat split. Qed.

Section WithChild.

Variable child_pid : Z.

Lemma remove_first_subset p q l : q ∈ remove_first p l -> q ∈ l.
Proof.
  induction l as [|x l IH]; cbn; [easy|].
  destruct (x =? p).
  - intros H. now apply elem_of_cons; right.
  - rewrite !elem_of_cons. intros [->|H]; auto.
Qed.

Lemma nth_elem_of (l : list Z) i d : (i < length l)%nat -> nth i l d ∈ l.
Proof. intros H. apply list_elem_of_In. now apply nth_In. Qed.

Lemma poll_one_collector pick st :
  one_collector child_pid st -> one_collector child_pid (poll child_pid pick st).
Proof.
  intros [Hz Hc]. unfold poll.
  destruct (reapable child_pid st) as [|p0 ps] eqn:Hr; [now split|].
  set (pid := nth (Nat.modulo pick (length (p0 :: ps))) (p0 :: ps) p0).
  assert (Hin : pid ∈ reapable child_pid st).
  { rewrite Hr. apply nth_elem_of. apply Nat.mod_upper_bound. cbn. lia. }
  destruct (pid <=? 0); [now split|].
  destruct (pid =? child_pid) eqn:Hpid.
  - apply Z.eqb_eq in Hpid. unfold reapable in Hin.
    destruct (child st) eqn:Hch.
    + rewrite Hpid in Hin. contradiction.
    + destruct Hc as [Hnr Hw]. split; [exact Hz|]. cbn. left. split.
      * apply elem_of_app. right. now apply list_elem_of_singleton.
      * rewrite Hw. discriminate.
    + rewrite Hpid in Hin. contradiction.
  - apply Z.eqb_neq in Hpid. split; cbn.
    + intros H. apply remove_first_subset in H. contradiction.
    + assert (Hmore : forall l : list Z, child_pid ∉ l -> child_pid ∉ l ++ [pid]).
      { intros l Hl H. apply elem_of_app in H as [H|H]; [contradiction|].
        apply list_elem_of_singleton in H. congruence. }
      assert (Hkeep : forall l : list Z, child_pid ∈ l -> child_pid ∈ l ++ [pid]).
      { intros l Hl. apply elem_of_app. now left. }
      destruct (child st); try (destruct Hc; split; auto).
      destruct Hc as [[Hr' Hs]|[Hr' Hs]]; [left|right]; auto.
Qed.

Lemma step_one_collector st a :
  one_collector child_pid st -> one_collector child_pid (step child_pid st a).
Proof.
  intros Hst. destruct a as [|pid|pick| |]; cbn.
  - destruct Hst as [Hz Hc]. destruct (child st) eqn:Hch; split; cbn;
      rewrite ?Hch; auto.
  - destruct ((pid <=? 0) || (pid =? child_pid)) eqn:Hguard; [exact Hst|].
    apply orb_false_iff in Hguard as [_ Hne]. apply Z.eqb_neq in Hne.
    destruct Hst as [Hz Hc]. split; cbn; [|exact Hc].
    intros H. apply elem_of_app in H as [H|H]; [contradiction|].
    apply list_elem_of_singleton in H. congruence.
  - now apply poll_one_collector.
  - exact Hst.
  - destruct Hst as [Hz Hc]. unfold supervisor_wait.
    destruct (supervisor st) eqn:Hs; try (split; [exact Hz|]; now rewrite ?Hs).
    destruct (child st) eqn:Hch; try (split; [exact Hz|]; now rewrite ?Hch, ?Hs).
    + split; [exact Hz|]. cbn. right. now destruct Hc.
    + split; [exact Hz|]. cbn. destruct Hc as [[Hr _]|[_ Ho]]; [|congruence].
      left. split; [exact Hr|discriminate].
Qed.

Lemma run_one_collector acts : one_collector child_pid (run child_pid acts).
Proof.
  unfold run. assert (H0 : one_collector child_pid init).
  { split; cbn; [apply not_elem_of_nil|]. split; [apply not_elem_of_nil|easy]. }
  revert H0. generalize init.
  induction acts as [|a acts IH]; intros st Hst; [exact Hst|].
  cbn. apply IH. now apply step_one_collector.
Qed.

End WithChild.

Lemma run_continued child_pid acts more :
  run child_pid (acts ++ more) = fold_left (step child_pid) more (run child_pid acts).
Proof. unfold run. apply fold_left_app. Qed.

(** Once observed by the supervisor, always observed; once collected, always
    collected; what the reaper logged stays logged. *)
Lemma observed_is_stable child_pid more st :
  supervisor st = Observed ->
  supervisor (fold_left (step child_pid) more st) = Observed.
Proof.
  revert st. induction more as [|a more IH]; intros st Hs; [exact Hs|].
  cbn [fold_left]. apply IH.
  destruct a as [|pid|pick| |]; cbn [step].
  - now destruct (child st).
  - now destruct ((pid <=? 0) || (pid =? child_pid)).
  - unfold poll. destruct (reapable child_pid st) as [|p0 ps]; [exact Hs|].
    destruct (_ <=? 0); [exact Hs|]. now destruct (_ =? child_pid).
  - exact Hs.
  - unfold supervisor_wait. now rewrite Hs.
Qed.

Lemma collected_is_stable child_pid more st :
  child st = Collected ->
  child (fold_left (step child_pid) more st) = Collected.
Proof.
  revert st. induction more as [|a more IH]; intros st Hc; [exact Hc|].
  cbn [fold_left]. apply IH.
  destruct a as [|pid|pick| |]; cbn [step].
  - now rewrite Hc.
  - now destruct ((pid <=? 0) || (pid =? child_pid)).
  - unfold poll. destruct (reapable child_pid st) as [|p0 ps]; [exact Hc|].
    destruct (_ <=? 0); [exact Hc|]. now destruct (_ =? child_pid).
  - exact Hc.
  - unfold supervisor_wait. rewrite Hc. now destruct (supervisor st).
Qed.

Lemma reaped_is_stable child_pid more st p :
  p ∈ reaped st -> p ∈ reaped (fold_left (step child_pid) more st).
Proof.
  revert st. induction more as [|a more IH]; intros st Hp; [exact Hp|].
  cbn [fold_left]. apply IH.
  destruct a as [|pid|pick| |]; cbn [step].
  - now destruct (child st).
  - now destruct ((pid <=? 0) || (pid =? child_pid)).
  - unfold poll. destruct (reapable child_pid st) as [|p0 ps]; [exact Hp|].
    destruct (_ <=? 0); [exact Hp|].
    destruct (_ =? child_pid); cbn [reaped]; apply elem_of_app; now left.
  - exact Hp.
  - unfold supervisor_wait. destruct (supervisor st); try exact Hp.
    now destruct (child st).
Qed.

(** After the reaper took the status, the supervisor's wait can only fail. *)
Lemma wait_after_reaper_fails child_pid more st :
  child st = Collected ->
  supervisor st = Waiting \/ supervisor st = NoChild ->
  (supervisor (fold_left (step child_pid) more st) = Waiting
   \/ supervisor (fold_left (step child_pid) more st) = NoChild)
  /\ (SupervisorWait ∈ more \/ supervisor st = NoChild ->
      supervisor (fold_left (step child_pid) more st) = NoChild).
Proof.
  revert st. induction more as [|a more IH]; intros st Hc Hs.
  - cbn. split; [exact Hs|]. intros [H|H]; [now apply elem_of_nil in H|exact H].
  - cbn [fold_left].
    assert (Hc' : child (step child_pid st a) = Collected)
      by exact (collected_is_stable child_pid [a] st Hc).
    assert (Hs' : (supervisor (step child_pid st a) = Waiting
                   \/ supervisor (step child_pid st a) = NoChild)
                  /\ (a = SupervisorWait \/ supervisor st = NoChild ->
                      supervisor (step child_pid st a) = NoChild)).
    { destruct a as [|pid|pick| |]; cbn [step].
      - rewrite Hc. split; [exact Hs|]. now intros [H|H].
      - destruct ((pid <=? 0) || (pid =? child_pid)); (split; [exact Hs|]);
          now intros [H|H].
      - unfold poll. destruct (reapable child_pid st) as [|p0 ps];
          [split; [exact Hs|]; now intros [H|H]|].
        destruct (_ <=? 0); [split; [exact Hs|]; now intros [H|H]|].
        destruct (_ =? child_pid); (split; [exact Hs|]); now intros [H|H].
      - split; [exact Hs|]. now intros [H|H].
      - unfold supervisor_wait. rewrite Hc.
        destruct Hs as [Hs|Hs]; rewrite Hs; cbn [supervisor];
          (split; [now right|]); intros _; [reflexivity|exact Hs]. }
    destruct Hs' as [Hw Hn].
    destruct (IH (step child_pid st a) Hc' Hw) as [IHw IHn].
    split; [exact IHw|]. intros [Hin|Hno].
    + apply elem_of_cons in Hin as [<-|Hin]; apply IHn; [right|now left].
      apply Hn. now left.
    + apply IHn. right. apply Hn. now right.
Qed.

(** C1, amended: the reaper's wildcard collection does not leave the workload
    child out, and the child's exit status goes to exactly one of the two
    waiters, the one that comes first (process ids not being reused, and the
    child's pid being positive).
    - Until the status is collected the reaper has not logged the child's pid
      and the supervisor's wait has not returned.
    - Once it is collected, either the reaper has logged the pid and the
      supervisor has not observed the status, or the supervisor has observed
      it and the reaper has not logged the pid: exactly one of the two.
    - When the child has exited and the supervisor's wait comes next, the wait
      observes the status, and whatever follows the reaper never logs the
      child's pid.
    - When the child has exited and a poll of the reaper comes next and is
      handed the child, the poll logs the child's pid at once, and whatever
      follows the supervisor never observes the status: its wait, when it
      comes, fails. *)
Theorem child_status_has_one_collector (child_pid : Z) (acts : list action) :
  (child (run child_pid acts) <> Collected ->
   (child_pid ∉ reaped (run child_pid acts))
   /\ supervisor (run child_pid acts) = Waiting)
  /\ (child (run child_pid acts) = Collected ->
      ((child_pid ∈ reaped (run child_pid acts))
       /\ supervisor (run child_pid acts) <> Observed)
      \/ ((child_pid ∉ reaped (run child_pid acts))
          /\ supervisor (run child_pid acts) = Observed))
  /\ (supervisor (run child_pid acts) = Observed ->
      child_pid ∉ reaped (run child_pid acts))
  /\ (child_pid ∈ reaped (run child_pid acts) ->
      child (run child_pid acts) = Collected
      /\ supervisor (run child_pid acts) <> Observed)
  /\ (child (run child_pid acts) = Zombie ->
      forall more,
        supervisor (run child_pid (acts ++ SupervisorWait :: more)) = Observed
        /\ child (run child_pid (acts ++ SupervisorWait :: more)) = Collected
        /\ (child_pid ∉ reaped (run child_pid (acts ++ SupervisorWait :: more))))
  /\ (child (run child_pid acts) = Zombie ->
      0 < child_pid ->
      forall pick more,
        Nat.modulo pick (S (length (zombies (run child_pid acts)))) = 0%nat ->
        reaped (run child_pid (acts ++ [Poll pick]))
        = reaped (run child_pid acts) ++ [child_pid]
        /\ (child_pid ∈ reaped (run child_pid (acts ++ Poll pick :: more)))
        /\ child (run child_pid (acts ++ Poll pick :: more)) = Collected
        /\ supervisor (run child_pid (acts ++ Poll pick :: more)) <> Observed
        /\ (SupervisorWait ∈ more ->
            supervisor (run child_pid (acts ++ Poll pick :: more)) = NoChild)).
Proof.
  pose proof (run_one_collector child_pid acts) as [_ Hc].
  assert (Hold : (supervisor (run child_pid acts) = Observed ->
                  child_pid ∉ reaped (run child_pid acts))
                 /\ (child_pid ∈ reaped (run child_pid acts) ->
                     child (run child_pid acts) = Collected
                     /\ supervisor (run child_pid acts) <> Observed)).
  { destruct (child (run child_pid acts)).
    - destruct Hc as [Hr Hs]. split; [auto|]. intros H. contradiction.
    - destruct Hc as [Hr Hs]. split; [auto|]. intros H. contradiction.
    - destruct Hc as [[Hr Hs]|[Hr Hs]].
      + split; [intros H; contradiction|]. auto.
      + split; [auto|]. intros H. contradiction. }
  destruct Hold as [Hold1 Hold2].
  split; [|split; [|split; [exact Hold1|split; [exact Hold2|split]]]].
  - intros Hnc. destruct (child (run child_pid acts)); [exact Hc|exact Hc|].
    now contradiction Hnc.
  - intros Hcol. now rewrite Hcol in Hc.
  - intros Hz more. rewrite Hz in Hc. destruct Hc as [Hnr Hw].
    assert (Hobs : supervisor (run child_pid (acts ++ SupervisorWait :: more)) = Observed).
    { rewrite run_continued. cbn [fold_left step]. apply observed_is_stable.
      unfold supervisor_wait. now rewrite Hw, Hz. }
    split; [exact Hobs|]. split.
    + rewrite run_continued. cbn [fold_left step]. apply collected_is_stable.
      unfold supervisor_wait. now rewrite Hw, Hz.
    + pose proof (run_one_collector child_pid (acts ++ SupervisorWait :: more))
        as [_ Hc'].
      destruct (child (run child_pid (acts ++ SupervisorWait :: more)));
        [now destruct Hc'|now destruct Hc'|].
      destruct Hc' as [[_ Hno]|[Hnr' _]]; [contradiction|exact Hnr'].
  - intros Hz Hpos pick more Hpick. rewrite Hz in Hc. destruct Hc as [Hnr Hw].
    assert (Hpoll : poll child_pid pick (run child_pid acts)
                    = {| child := Collected;
                         zombies := zombies (run child_pid acts);
                         reaped := reaped (run child_pid acts) ++ [child_pid];
                         supervisor := supervisor (run child_pid acts) |}).
    { unfold poll, reapable. rewrite Hz. cbn [length]. rewrite Hpick. cbn [nth].
      destruct (Z.leb_spec child_pid 0) as [Hle|_]; [lia|].
      now rewrite Z.eqb_refl. }
    split; [rewrite run_continued; cbn [fold_left step]; now rewrite Hpoll|].
    rewrite run_continued. cbn [fold_left step]. rewrite Hpoll.
    match goal with |- context [fold_left _ more ?st0] => set (st1 := st0) end.
    assert (Hc1 : child st1 = Collected) by reflexivity.
    assert (Hs1 : supervisor st1 = Waiting \/ supervisor st1 = NoChild)
      by (left; exact Hw).
    assert (Hr1 : child_pid ∈ reaped st1)
      by (apply elem_of_app; right; now apply list_elem_of_singleton).
    destruct (wait_after_reaper_fails child_pid more st1 Hc1 Hs1) as [Hwn Hfail].
    split; [now apply reaped_is_stable|].
    split; [now apply collected_is_stable|].
    split; [destruct Hwn as [-> | ->]; discriminate|].
    intros Hin. apply Hfail. now left.
Qed.

(** Both orders after the same history: another child (pid 7) and then the
    workload child (pid 2) have exited. *)
Lemma child_status_has_one_collector_witness :
  child (run 2 [OrphanExits 7; ChildExits]) = Zombie
  /\ (supervisor (run 2 ([OrphanExits 7; ChildExits] ++ SupervisorWait :: [Poll 0; Poll 0]))
      = Observed
      /\ (2 ∉ reaped (run 2 ([OrphanExits 7; ChildExits] ++ SupervisorWait :: [Poll 0; Poll 0]))))
  /\ (reaped (run 2 ([OrphanExits 7; ChildExits] ++ [Poll 2])) = [2]
      /\ supervisor (run 2 ([OrphanExits 7; ChildExits] ++ Poll 2 :: [SupervisorWait; Poll 0]))
         = NoChild).
Proof.
  destruct (child_status_has_one_collector 2 [OrphanExits 7; ChildExits])
    as (_ & _ & _ & _ & Hsup & Hreap).
  split; [reflexivity|]. split.
  - destruct (Hsup eq_refl [Poll 0; Poll 0]) as (Ho & _ & Hn). now split.
  - destruct (Hreap eq_refl ltac:(lia) 2%nat [SupervisorWait; Poll 0] eq_refl)
      as (Hr & _ & _ & _ & Hfail).
    split; [exact Hr|]. apply Hfail. apply elem_of_cons. now left.
Defined.

End ReaperFacts.


(** * Further properties of the code *)

(** ** Every path of [main] ends in [shutdown] *)

Lemma unwinds_bind {A B} (m : M A) (f : A -> M B) :
  unwinds m -> (forall a, unwinds (f a)) -> unwinds (m ≫= f).
Proof.
  intros [[a Ha]|[msg Hp]] Hf.
  - unfold unwinds. rewrite (out_bind_Done _ _ a Ha). apply Hf.
  - right. exists msg. now apply out_bind_Panicked.
Qed.

Lemma unwinds_Done {A} (m : M A) a : out m = Done a -> unwinds m.
Proof. intros H. left. now exists a. Qed.

Lemma unwinds_Panicf {A} msg : unwinds (@Panicf A msg).
Proof. right. now exists msg. Qed.

Lemma load_config_unwinds w : unwinds (load_config w).
Proof.
  unfold load_config. apply unwinds_bind; [now apply (unwinds_Done _ tt)|intros _].
  destruct (os_ReadFile w apko_json) as [b [e|]];
    (apply unwinds_bind; [now apply (unwinds_Done _ tt)|intros _]);
    destruct (json_Unmarshal w b);
    first [apply unwinds_Panicf | eapply unwinds_Done; reflexivity].
Qed.

Lemma network_unwinds w : unwinds (network w).
Proof.
  destruct (network_out w) as [H|[msg H]]; [now apply (unwinds_Done _ tt)|].
  right. now exists msg.
Qed.

Lemma split_args_unwinds w ic : unwinds (split_args w ic).
Proof.
  unfold split_args. apply unwinds_bind.
  - destruct (String.eqb (Command (Entrypoint ic)) "");
      [eapply unwinds_Done; reflexivity|].
    destruct (shlex_Split w (Command (Entrypoint ic)));
      first [apply unwinds_Panicf | eapply unwinds_Done; reflexivity].
  - intros args. destruct (String.eqb (Cmd ic) "");
      [eapply unwinds_Done; reflexivity|].
    destruct (shlex_Split w (Cmd ic));
      first [apply unwinds_Panicf | eapply unwinds_Done; reflexivity].
Qed.

Lemma run_as_unwinds ic : unwinds (run_as ic).
Proof.
  unfold run_as. destruct (negb (String.eqb (RunAs (Accounts ic)) ""));
    [|eapply unwinds_Done; reflexivity].
  destruct (search_users _ _ 0 0) as [uid gid].
  destruct ((uid =? 0) && negb (String.eqb (RunAs (Accounts ic)) "root"));
    [|eapply unwinds_Done; reflexivity].
  destruct (Go.Atoi (RunAs (Accounts ic)));
    first [apply unwinds_Panicf | eapply unwinds_Done; reflexivity].
Qed.

Lemma launcher_unwinds w ic : unwinds (launcher w ic).
Proof.
  unfold launcher.
  apply unwinds_bind; [now apply (unwinds_Done _ tt)|intros _].
  apply unwinds_bind.
  { destruct (os_Setenv w "PATH" (lookup_env ic "PATH"));
      first [apply unwinds_Panicf | eapply unwinds_Done; reflexivity]. }
  intros _. apply unwinds_bind; [apply split_args_unwinds|intros args].
  apply unwinds_bind.
  { destruct args; [right; eexists; reflexivity | eapply unwinds_Done; reflexivity]. }
  intros [path rest]. apply unwinds_bind; [apply run_as_unwinds|intros ug].
  eapply unwinds_Done; reflexivity.
Qed.

Lemma supervise_unwinds w cmd : unwinds (supervise w cmd).
Proof.
  unfold supervise.
  apply unwinds_bind; [now apply (unwinds_Done _ tt)|intros _].
  destruct (cmd_Start w cmd);
    first [apply unwinds_Panicf | eapply unwinds_Done; reflexivity].
Qed.

Lemma boot_unwinds w : unwinds (boot w).
Proof.
  unfold boot.
  apply unwinds_bind; [apply (unwinds_Done _ tt), mount_rest_out|intros _].
  apply unwinds_bind; [apply load_config_unwinds|intros ic].
  apply unwinds_bind; [apply network_unwinds|intros _].
  apply unwinds_bind; [apply launcher_unwinds|intros cmd].
  apply supervise_unwinds.
Qed.

Lemma out_defer_unwinds {A} (d : M unit) (body : M A) :
  unwinds body ->
  trace (defer d body) = trace body ++ trace d
  /\ (out d = Blocked -> out (defer d body) = Blocked)
  /\ (forall code, out d = Exited code -> out (defer d body) = Exited code).
Proof.
  intros [[a Ha]|[msg Hp]]; unfold defer; [rewrite Ha|rewrite Hp]; cbn;
    (split; [reflexivity|]); split; intros; now rewrite H.
Qed.


Lemma main_trace w :
  trace (main w) = trace (mount_proc w) ++ trace (boot w) ++ trace (shutdown w).
Proof.
  destruct (out_defer_unwinds (shutdown w) (boot w) (boot_unwinds w)) as (Ht & _).
  unfold main. rewrite trace_bind. unfold mount_proc at 2.
  rewrite try_mount_out. now rewrite Ht.
Qed.


(** ** What [main] starts and waits for *)

Section Lifecycle.

Context {C : Type} (f : event -> option C).

(** [f] looks at starts and waits only. *)
Hypothesis f_other :
  forall e, match e with Start _ | Wait _ => False | _ => True end -> f e = None.

Lemma omap_trace_bind {A B} (m : M A) (g : A -> M B) :
  omap f (trace (m ≫= g))
  = omap f (trace m) ++ match out m with
                        | Done a => omap f (trace (g a))
                        | _ => []
                        end.
Proof. rewrite trace_bind, omap_app. now destruct (out m). Qed.

Lemma omap_bind_nil {A B} (m : M A) (g : A -> M B) :
  omap f (trace m) = [] ->
  (forall a, omap f (trace (g a)) = []) ->
  omap f (trace (m ≫= g)) = [].
Proof.
  intros Hm Hg. rewrite omap_trace_bind, Hm. destruct (out m); cbn; auto.
Qed.

Lemma omap_emit e :
  match e with Start _ | Wait _ => False | _ => True end ->
  omap f (trace (emit e)) = [].
Proof. intros He. cbn. now rewrite (f_other e He). Qed.

Lemma omap_Printf msg : omap f (trace (Printf msg)) = [].
Proof. now apply omap_emit. Qed.

Lemma omap_Panicf {A} msg : omap f (trace (@Panicf A msg)) = [].
Proof. cbn. now rewrite (f_other (Log msg) I). Qed.

Lemma omap_Fatalf {A} msg : omap f (trace (@Fatalf A msg)) = [].
Proof. cbn. now rewrite (f_other (Log msg) I). Qed.

Ltac quiet :=
  repeat first
    [ reflexivity
    | apply omap_Printf
    | apply omap_Panicf
    | apply omap_Fatalf
    | apply omap_emit; exact I
    | apply omap_bind_nil; [|intros] ].

Lemma try_mount_quiet w source target fstype options :
  omap f (trace (try_mount w source target fstype options)) = [].
Proof. unfold try_mount. quiet. destruct (mount_Mount w _ _ _ _); quiet. Qed.

Lemma mount_rest_quiet w : omap f (trace (mount_rest w)) = [].
Proof.
  unfold mount_rest.
  apply omap_bind_nil; [apply try_mount_quiet|intros _].
  apply omap_bind_nil; [quiet|intros _].
  apply omap_bind_nil; [|intros _].
  { destruct (os_Mkdir w "/sys"); [quiet|apply try_mount_quiet]. }
  apply omap_bind_nil; [apply try_mount_quiet|intros _]. apply try_mount_quiet.
Qed.

Lemma load_config_quiet w : omap f (trace (load_config w)) = [].
Proof.
  unfold load_config. quiet.
  destruct (os_ReadFile w apko_json) as [b [e|]]; quiet;
    destruct (json_Unmarshal w b); quiet.
Qed.

Lemma configure_all_quiet rs : omap f (trace (configure_all rs)) = [].
Proof.
  induction rs as [|r rs IH]; [reflexivity|]. cbn [configure_all].
  apply omap_bind_nil; [|intros _; exact IH].
  destruct (ResultErr r); quiet. destruct (LeaseConfigure r); quiet.
Qed.

Lemma network_quiet w : omap f (trace (network w)) = [].
Proof.
  unfold network. quiet.
  - destruct (netlink_LinkByName w "lo") as [l|e]; quiet.
    destruct (netlink_LinkSetUp w l); quiet.
  - destruct (netlink_LinkList w) as [ll|e]; quiet.
    destruct (select_link ll) as [eth|]; quiet.
    destruct (netlink_LinkSetUp w eth); quiet.
    apply configure_all_quiet.
Qed.

Lemma split_args_quiet w ic : omap f (trace (split_args w ic)) = [].
Proof.
  unfold split_args. apply omap_bind_nil; [|intros args].
  - destruct (String.eqb (Command (Entrypoint ic)) ""); quiet.
    destruct (shlex_Split w (Command (Entrypoint ic))); quiet.
  - destruct (String.eqb (Cmd ic) ""); quiet.
    destruct (shlex_Split w (Cmd ic)); quiet.
Qed.

Lemma run_as_quiet ic : omap f (trace (run_as ic)) = [].
Proof.
  unfold run_as. destruct (negb (String.eqb (RunAs (Accounts ic)) "")); quiet.
  destruct (search_users _ _ 0 0) as [uid gid].
  destruct ((uid =? 0) && negb (String.eqb (RunAs (Accounts ic)) "root")); quiet.
  destruct (Go.Atoi (RunAs (Accounts ic))); quiet.
Qed.

Lemma launcher_quiet w ic : omap f (trace (launcher w ic)) = [].
Proof.
  unfold launcher.
  apply omap_bind_nil; [quiet|intros _].
  apply omap_bind_nil;
    [destruct (os_Setenv w "PATH" (lookup_env ic "PATH")); quiet|intros _].
  apply omap_bind_nil; [apply split_args_quiet|intros args].
  apply omap_bind_nil; [destruct args; quiet|intros [path rest]].
  apply omap_bind_nil; [apply run_as_quiet|intros ug]. quiet.
Qed.

Lemma shutdown_quiet w : omap f (trace (shutdown w)) = [].
Proof.
  unfold shutdown. quiet.
  destruct (os_WriteFile w sysrq ("s" +:+ nl)); quiet.
  destruct (os_WriteFile w sysrq ("o" +:+ nl)); quiet.
Qed.

(** Of [main], only [supervise] starts or waits, and it is reached only
    through a loaded configuration, a configured network and a built
    command. *)
Lemma main_lifecycle w :
  omap f (trace (main w))
  = match out (load_config w) with
    | Done ic =>
        match out (network w) with
        | Done _ =>
            match out (launcher w ic) with
            | Done c => omap f (trace (supervise w c))
            | _ => []
            end
        | _ => []
        end
    | _ => []
    end.
Proof.
  rewrite main_trace, !omap_app, shutdown_quiet, app_nil_r.
  unfold mount_proc. rewrite try_mount_quiet. cbn [app].
  unfold boot.
  rewrite omap_trace_bind, mount_rest_quiet, mount_rest_out. cbn [app].
  rewrite omap_trace_bind, load_config_quiet. cbn [app].
  destruct (out (load_config w)) as [ic| | |]; try reflexivity.
  rewrite omap_trace_bind, network_quiet. cbn [app].
  destruct (out (network w)) as [[]| | |]; try reflexivity.
  rewrite omap_trace_bind, launcher_quiet. cbn [app].
  destruct (out (launcher w ic)) as [c| | |]; reflexivity.
Qed.

End Lifecycle.

Lemma started_supervise w c : started (trace (supervise w c)) = [c].
Proof. unfold supervise. cbn. now destruct (cmd_Start w c). Qed.

Lemma waited_supervise w c :
  waited (trace (supervise w c))
  = match cmd_Start w c with Val pid => [pid] | Err _ => [] end.
Proof. unfold supervise. cbn. now destruct (cmd_Start w c). Qed.

Lemma started_main w :
  started (trace (main w))
  = match out (load_config w) with
    | Done ic =>
        match out (network w) with
        | Done _ =>
            match out (launcher w ic) with
            | Done c => [c]
            | _ => []
            end
        | _ => []
        end
    | _ => []
    end.
Proof.
  unfold started. rewrite main_lifecycle by (intros []; easy).
  destruct (out (load_config w)) as [ic| | |]; try reflexivity.
  destruct (out (network w)) as [[]| | |]; try reflexivity.
  destruct (out (launcher w ic)) as [c| | |]; try reflexivity.
  apply started_supervise.
Qed.

Lemma waited_main w :
  waited (trace (main w))
  = match out (load_config w) with
    | Done ic =>
        match out (network w) with
        | Done _ =>
            match out (launcher w ic) with
            | Done c => match cmd_Start w c with Val pid => [pid] | Err _ => [] end
            | _ => []
            end
        | _ => []
        end
    | _ => []
    end.
Proof.
  unfold waited. rewrite main_lifecycle by (intros []; easy).
  destruct (out (load_config w)) as [ic| | |]; try reflexivity.
  destruct (out (network w)) as [[]| | |]; try reflexivity.
  destruct (out (launcher w ic)) as [c| | |]; try reflexivity.
  apply waited_supervise.
Qed.




(** X2: [main] tries to start a process at most once, and only the command
    the launcher built, after the configuration was loaded, the network
    bring-up ran to its end and the launcher returned: a failure of any of
    these leaves the run without a start. *)
Theorem main_starts_only_the_launched_command (w : World) (c : ExecCmd) :
  c ∈ started (trace (main w)) ->
  exists ic,
    out (load_config w) = Done ic
    /\ out (network w) = Done tt
    /\ out (launcher w ic) = Done c
    /\ started (trace (main w)) = [c].
Proof.
  rewrite started_main.
  destruct (out (load_config w)) as [ic| | |];
    [|intros H; apply elem_of_nil in H; contradiction..].
  destruct (out (network w)) as [[]| | |];
    [|intros H; apply elem_of_nil in H; contradiction..].
  destruct (out (launcher w ic)) as [c'| | |] eqn:Hl;
    [|intros H; apply elem_of_nil in H; contradiction..].
  intros H. apply list_elem_of_singleton in H as ->. now exists ic.
Qed.

Lemma main_starts_only_the_launched_command_witness :
  exists c,
       c ∈ started (trace (main (guest present true_as_root)))
       /\ Path c = "/bin/true"
       /\ exists ic,
            out (load_config (guest present true_as_root)) = Done ic
            /\ out (network (guest present true_as_root)) = Done tt
            /\ out (launcher (guest present true_as_root) ic) = Done c
            /\ started (trace (main (guest present true_as_root))) = [c].
Proof.
  eexists. split; [vm_compute; apply elem_of_cons; left; reflexivity|].
  split; [reflexivity|].
  apply (main_starts_only_the_launched_command (guest present true_as_root)).
  vm_compute. apply elem_of_cons. now left.
Defined.

(** X3: [main] waits for a process at most once, and only for the pid that
    the start of the launched command returned; a start that fails is
    followed by no wait. *)
Theorem main_waits_for_the_started_pid (w : World) (pid : Z) :
  pid ∈ waited (trace (main w)) ->
  exists c,
    started (trace (main w)) = [c]
    /\ cmd_Start w c = Val pid
    /\ waited (trace (main w)) = [pid].
Proof.
  rewrite waited_main, started_main.
  destruct (out (load_config w)) as [ic| | |];
    [|intros H; apply elem_of_nil in H; contradiction..].
  destruct (out (network w)) as [[]| | |];
    [|intros H; apply elem_of_nil in H; contradiction..].
  destruct (out (launcher w ic)) as [c| | |];
    [|intros H; apply elem_of_nil in H; contradiction..].
  destruct (cmd_Start w c) as [pid'|e] eqn:Hstart; intros H;
    [|apply elem_of_nil in H; contradiction].
  apply list_elem_of_singleton in H as ->. now exists c.
Qed.

Lemma main_waits_for_the_started_pid_witness :
  2 ∈ waited (trace (main (guest present true_as_root)))
  /\ exists c,
       started (trace (main (guest present true_as_root))) = [c]
       /\ cmd_Start (guest present true_as_root) c = Val 2
       /\ waited (trace (main (guest present true_as_root))) = [2].
Proof.
  split; [vm_compute; apply elem_of_cons; now left|].
  apply (main_waits_for_the_started_pid (guest present true_as_root) 2).
  vm_compute. apply elem_of_cons. now left.
Defined.

(** ** Network bring-up *)

Lemma land_pow2 a k :
  0 <= k -> Z.land a (2 ^ k) = if Z.testbit a k then 2 ^ k else 0.
Proof.
  intros Hk. apply Z.bits_inj'. intros n Hn.
  rewrite Z.land_spec, Z.pow2_bits_eqb by exact Hk.
  destruct (Z.eqb_spec k n) as [->|Hne].
  - rewrite andb_true_r. destruct (Z.testbit a n) eqn:Ha.
    + rewrite Z.pow2_bits_eqb by exact Hn. now rewrite Z.eqb_refl.
    + now rewrite Z.bits_0.
  - rewrite andb_false_r. destruct (Z.testbit a k).
    + rewrite Z.pow2_bits_eqb by exact Hk. symmetry. now apply Z.eqb_neq.
    + now rewrite Z.bits_0.
Qed.

Lemma has_flag_testbit l k :
  0 <= k -> has_flag l (Z.shiftl 1 k) = Z.testbit (Flags l) k.
Proof.
  intros Hk. unfold has_flag.
  rewrite Z.shiftl_1_l, land_pow2 by exact Hk.
  assert (0 < 2 ^ k) by (apply Z.pow_pos_nonneg; lia).
  destruct (Z.testbit (Flags l) k).
  - apply Z.eqb_refl.
  - apply Z.eqb_neq. lia.
Qed.

Lemma suitable_bits l :
  suitable l = Z.testbit (Flags l) 1 && Z.testbit (Flags l) 4.
Proof.
  unfold suitable, FlagBroadcast, FlagMulticast.
  now rewrite !has_flag_testbit by lia.
Qed.

Lemma select_link_suitable ll :
  select_link ll = List.find suitable ll.
Proof.
  induction ll as [|l ll IH]; [reflexivity|]. cbn. unfold suitable at 1.
  destruct (has_flag l FlagBroadcast); cbn; [|exact IH].
  destruct (has_flag l FlagMulticast); cbn; [reflexivity|exact IH].
Qed.

(** X4: the link [main] picks is the first of the list whose flags have both
    the broadcast bit (bit 1) and the multicast bit (bit 4) set, every link
    before it lacking one of the two; no link is picked exactly when every
    link lacks one of the two.  No other flag is looked at. *)
Theorem select_link_is_first_with_both_bits (ll : list Link) :
  (forall l, select_link ll = Some l ->
     exists pre post,
       ll = pre ++ l :: post
       /\ Z.testbit (Flags l) 1 = true /\ Z.testbit (Flags l) 4 = true
       /\ Forall (fun x => Z.testbit (Flags x) 1 && Z.testbit (Flags x) 4 = false) pre)
  /\ (select_link ll = None <->
      Forall (fun x => Z.testbit (Flags x) 1 && Z.testbit (Flags x) 4 = false) ll).
Proof.
  rewrite select_link_suitable. induction ll as [|x ll [IHs IHn]].
  - split; [discriminate|]. split; [constructor|reflexivity].
  - cbn. pose proof (suitable_bits x) as Hx.
    destruct (suitable x) eqn:Hsx; split.
    + intros l [= <-]. exists [], ll. symmetry in Hx.
      apply andb_true_iff in Hx as [H1 H4]. repeat split; auto.
    + split; [discriminate|]. intros H. apply Forall_cons in H as [H _].
      change (Z.testbit (Flags x) 1 && Z.testbit (Flags x) 4 = false) in H.
      congruence.
    + intros l Hl. destruct (IHs l Hl) as (pre & post & -> & H1 & H4 & Hpre).
      exists (x :: pre), post. repeat split; auto.
    + rewrite IHn. split.
      * intros H. now constructor.
      * intros H. now apply Forall_cons in H as [_ H].
Qed.

Lemma requested_app t1 t2 : requested (t1 ++ t2) = requested t1 ++ requested t2.
Proof. apply omap_app. Qed.

Lemma configured_app t1 t2 : configured (t1 ++ t2) = configured t1 ++ configured t2.
Proof. apply omap_app. Qed.

Lemma logged_app t1 t2 : logged (t1 ++ t2) = logged t1 ++ logged t2.
Proof. apply omap_app. Qed.

(** The trace of the network bring-up up to the choice of a link. *)
Lemma network_without_link w ll :
  netlink_LinkList w = Val ll ->
  select_link ll = None ->
  (exists msg, out (network w) = Panicked msg)
  /\ requested (trace (network w)) = []
  /\ configured (trace (network w)) = [].
Proof.
  intros Hll Hnone. unfold network. rewrite Hll, Hnone.
  destruct (netlink_LinkByName w "lo") as [l|e]; cbn.
  - destruct (netlink_LinkSetUp w l); cbn; repeat split; eexists; reflexivity.
  - repeat split; eexists; reflexivity.
Qed.

(** X5: when no link of the list has both the broadcast and the multicast
    flag, the network bring-up panics; it requests no lease and applies none,
    and the run of [main] starts no process. *)
Theorem no_suitable_link_is_fatal (w : World) (ll : list Link) :
  netlink_LinkList w = Val ll ->
  Forall (fun l => suitable l = false) ll ->
  (exists msg, out (network w) = Panicked msg)
  /\ requested (trace (network w)) = []
  /\ configured (trace (network w)) = []
  /\ started (trace (main w)) = [].
Proof.
  intros Hll Hnone.
  assert (Hsel : select_link ll = None).
  { rewrite select_link_suitable. clear Hll.
    induction Hnone as [|l ll Hl _ IH]; [reflexivity|].
    cbn [List.find]. rewrite Hl. exact IH. }
  destruct (network_without_link w ll Hll Hsel) as ([msg Hp] & Hr & Hc).
  split; [now exists msg|]. split; [exact Hr|]. split; [exact Hc|].
  rewrite started_main, Hp. destruct (out (load_config w)); reflexivity.
Qed.

Lemma no_suitable_link_is_fatal_witness :
  netlink_LinkList (with_network [lo; tun0] [] (guest present true_as_root))
    = Val [lo; tun0]
  /\ out (network (with_network [lo; tun0] [] (guest present true_as_root)))
     = Panicked "no suitable interface found to listen on"
  /\ started (trace (main (with_network [lo; tun0] [] (guest present true_as_root)))) = [].
Proof.
  split; [reflexivity|]. split; [reflexivity|].
  apply (no_suitable_link_is_fatal
           (with_network [lo; tun0] [] (guest present true_as_root)) [lo; tun0]).
  - reflexivity.
  - repeat constructor.
Defined.

Lemma configure_all_trace rs :
  configured (trace (configure_all rs)) = omap leased rs
  /\ logged (trace (configure_all rs)) = omap lease_failure rs
  /\ requested (trace (configure_all rs)) = [].
Proof.
  induction rs as [|r rs (IHc & IHl & IHr)]; [now repeat split|].
  cbn [configure_all]. rewrite trace_bind.
  assert (Hout : out match ResultErr r with
                     | Some e => Printf (could_not r e)
                     | None =>
                         emit (Configure (Interface r));;
                         match LeaseConfigure r with
                         | Some e => Printf (could_not r e)
                         | None => mret tt
                         end
                     end = Done tt).
  { destruct (ResultErr r); [reflexivity|]. now destruct (LeaseConfigure r). }
  rewrite Hout, configured_app, logged_app, requested_app, IHc, IHl, IHr.
  unfold leased, lease_failure. cbn [omap list_omap].
  destruct (ResultErr r); [now repeat split|].
  destruct (LeaseConfigure r); now repeat split.
Qed.

(** X6: lease failures never stop boot.  Once the loopback and the chosen link
    are up, the network bring-up runs to its end whatever the lease results
    are: it requests leases once, for the chosen link; it applies exactly the
    leases of the results that carry no error, in order; and it logs one line
    for each result that carries an error or whose lease does not apply, then
    the closing line. *)
Theorem lease_failures_are_not_fatal (w : World) (lo' eth : Link) (ll : list Link) :
  netlink_LinkByName w "lo" = Val lo' ->
  netlink_LinkSetUp w lo' = None ->
  netlink_LinkList w = Val ll ->
  select_link ll = Some eth ->
  netlink_LinkSetUp w eth = None ->
  out (network w) = Done tt
  /\ requested (trace (network w)) = [Name eth]
  /\ configured (trace (network w)) = omap leased (dhclient_SendRequests w eth)
  /\ logged (trace (network w))
     = omap lease_failure (dhclient_SendRequests w eth)
       ++ ["Finished trying to configure all interfaces."].
Proof.
  intros Hlo Hloup Hll Hsel Hup.
  destruct (configure_all_trace (dhclient_SendRequests w eth)) as (Hc & Hl & Hr).
  pose proof (configure_all_out (dhclient_SendRequests w eth)) as Ho.
  unfold network. rewrite Hlo, Hloup, Hll, Hsel, Hup.
  split.
  - repeat (rewrite (out_bind_Done _ _ tt) by (exact Ho || reflexivity); cbv beta).
    reflexivity.
  - unfold mbind, M_bind. cbn -[configure_all]. rewrite Ho. cbn -[configure_all].
    unfold requested, configured, logged in Hc, Hl, Hr.
    rewrite !omap_app, Hc, Hl, Hr. cbn. now rewrite app_nil_r.
Qed.

Lemma lease_failures_are_not_fatal_witness :
  out (network (with_network [lo; tun0; eth0] three_results
                  (guest present true_as_root))) = Done tt
  /\ configured (trace (network (with_network [lo; tun0; eth0] three_results
                                   (guest present true_as_root)))) = ["eth0"; "eth0"]
  /\ logged (trace (network (with_network [lo; tun0; eth0] three_results
                               (guest present true_as_root))))
     = ["Could not configure eth0 for IPv4: timeout";
        "Could not configure eth0 for IPv4: file exists";
        "Finished trying to configure all interfaces."].
Proof.
  destruct (lease_failures_are_not_fatal
              (with_network [lo; tun0; eth0] three_results (guest present true_as_root))
              lo eth0 [lo; tun0; eth0]) as (Ho & _ & Hc & Hl); try reflexivity.
  split; [exact Ho|]. split; [exact Hc|exact Hl].
Defined.

(** ** The command the launcher builds *)

Lemma launcher_fields w ic c :
  out (launcher w ic) = Done c ->
  Dir c = WorkDir ic
  /\ Env c = environ (default ∅ (Environment ic))
  /\ exists ug, out (run_as ic) = Done ug
                /\ Uid c = Go.uint32 (fst ug) /\ Gid c = Go.uint32 (snd ug).
Proof.
  unfold launcher.
  destruct (os_Setenv w "PATH" (lookup_env ic "PATH")); [discriminate|].
  rewrite (out_bind_Done _ _ tt) by reflexivity; cbv beta.
  rewrite (out_bind_Done _ _ tt) by reflexivity; cbv beta.
  destruct (out (split_args w ic)) as [args| | |] eqn:Hargs;
    [|unfold mbind, M_bind; rewrite Hargs; discriminate..].
  rewrite (out_bind_Done _ _ args) by exact Hargs; cbv beta.
  destruct args as [|a rest]; [discriminate|].
  rewrite (out_bind_Done _ _ (a, rest)) by reflexivity; cbv beta.
  destruct (out (run_as ic)) as [ug| | |] eqn:Hug;
    [|unfold mbind, M_bind; rewrite Hug; discriminate..].
  rewrite (out_bind_Done _ _ ug) by exact Hug. cbn. intros [= <-]. cbn.
  split; [reflexivity|]. split; [reflexivity|]. now exists ug.
Qed.

Lemma launcher_first_event w ic :
  head (trace (launcher w ic)) = Some (Setenv "PATH" (lookup_env ic "PATH")).
Proof. unfold launcher. now rewrite trace_bind. Qed.

Lemma elem_of_environ (m : gmap string string) entry :
  entry ∈ environ m <-> exists k v, m !! k = Some v /\ entry = k +:+ "=" +:+ v.
Proof.
  unfold environ. rewrite list_elem_of_fmap. split.
  - intros ([k v] & -> & Hin). apply elem_of_map_to_list in Hin. now exists k, v.
  - intros (k & v & Hkv & ->). exists (k, v). split; [reflexivity|].
    now apply elem_of_map_to_list.
Qed.

(** X7: the environment of the command the launcher returns is the
    configuration's mapping, entry for entry: a string is in it exactly when
    it is [k=v] for an entry of the mapping, and there are as many strings as
    entries.  The first thing the launcher does is to set init's own PATH, and
    it sets it to the value the child gets. *)
Theorem child_environment_is_the_configured_one
    (w : World) (ic : ImageConfiguration) (c : ExecCmd) :
  out (launcher w ic) = Done c ->
  (forall entry,
     entry ∈ Env c <->
     exists k v, default ∅ (Environment ic) !! k = Some v
                 /\ entry = k +:+ "=" +:+ v)
  /\ length (Env c) = size (default ∅ (Environment ic))
  /\ Dir c = WorkDir ic
  /\ head (trace (launcher w ic)) = Some (Setenv "PATH" (lookup_env ic "PATH"))
  /\ (forall v, default ∅ (Environment ic) !! "PATH" = Some v ->
        lookup_env ic "PATH" = v /\ ("PATH=" +:+ v) ∈ Env c).
Proof.
  intros Hc. destruct (launcher_fields w ic c Hc) as (Hdir & Henv & _).
  rewrite Henv. split; [apply elem_of_environ|].
  split; [unfold environ; now rewrite length_fmap, length_map_to_list|].
  split; [exact Hdir|]. split; [apply launcher_first_event|].
  intros v Hv. split; [unfold lookup_env; now rewrite Hv|].
  apply elem_of_environ. now exists "PATH", v.
Qed.

Lemma child_environment_is_the_configured_one_witness :
  exists c,
    out (launcher (guest present (ensure_PATH with_home)) (ensure_PATH with_home))
      = Done c
    /\ length (Env c) = 2%nat
    /\ ("PATH=" +:+ defaultPath) ∈ Env c
    /\ ("HOME=/root") ∈ Env c.
Proof.
  eexists. split; [reflexivity|].
  destruct (child_environment_is_the_configured_one
              (guest present (ensure_PATH with_home)) (ensure_PATH with_home) _ eq_refl)
    as (Hin & Hlen & _ & _ & Hpath).
  split; [exact Hlen|]. split.
  - apply (Hpath defaultPath). reflexivity.
  - apply Hin. exists "HOME", "/root". split; reflexivity.
Defined.

(** ** Printing and parsing a uid *)

Lemma digits_of_uint_acc d acc :
  Go.digits (NilEmpty.string_of_uint d) (Z.pos acc)
  = Some (Z.pos (Pos.of_uint_acc d acc)).
Proof.
  revert acc. induction d as [|d IH|d IH|d IH|d IH|d IH|d IH|d IH|d IH|d IH|d IH];
    intros acc; [reflexivity|..]; cbn [NilEmpty.string_of_uint Go.digits Pos.of_uint_acc];
    match goal with
    | |- context [Go.digit ?c] => change (Go.digit c) with (Some (Z.of_N (N_of_ascii c) - 48))
    end; cbn [N_of_ascii N_of_digits Z.of_N N.add N.mul Pos.add Pos.mul Z.sub Z.add Z.opp Z.pos_sub];
    rewrite <- IH; f_equal; lia.
Qed.

Lemma digits_of_uint d :
  Go.digits (NilEmpty.string_of_uint d) 0 = Some (Z.of_N (Pos.of_uint d)).
Proof.
  induction d as [|d IH|d IH|d IH|d IH|d IH|d IH|d IH|d IH|d IH|d IH];
    [reflexivity|exact IH|..];
    cbn [NilEmpty.string_of_uint Go.digits Pos.of_uint Z.of_N];
    match goal with
    | |- context [Go.digit ?c] => change (Go.digit c) with (Some (Z.of_N (N_of_ascii c) - 48))
    end; cbn [N_of_ascii N_of_digits Z.of_N N.add N.mul Pos.add Pos.mul Z.sub Z.add Z.opp Z.pos_sub Z.mul];
    apply digits_of_uint_acc.
Qed.

Lemma Sprint_pos p : Go.Sprint (Z.pos p) = NilEmpty.string_of_uint (Pos.to_uint p).
Proof.
  unfold Go.Sprint. cbn [Z.to_N N.to_uint]. unfold NilZero.string_of_uint.
  pose proof (DecimalPos.Unsigned.to_uint_nonnil p) as Hnn.
  now destruct (Pos.to_uint p).
Qed.

(** A printed number starts with a digit. *)
Lemma Sprint_head n :
  exists c r, Go.Sprint n = String c r /\ Go.digit c <> None.
Proof.
  destruct n as [|p|p]; try (exists "0"%char, EmptyString; now split).
  rewrite Sprint_pos.
  pose proof (DecimalPos.Unsigned.to_uint_nonnil p) as Hnn.
  destruct (Pos.to_uint p); [contradiction|..]; eexists _, _; (split; [reflexivity|easy]).
Qed.

(** Parsing what was printed gives the number back. *)
Lemma Atoi_Sprint n :
  0 <= n <= Go.maxInt -> Go.Atoi (Go.Sprint n) = Val n.
Proof.
  intros [Hlo Hhi]. destruct n as [|p|p]; [reflexivity| |lia].
  assert (Hd : Go.digits (Go.Sprint (Z.pos p)) 0 = Some (Z.pos p)).
  { rewrite Sprint_pos, digits_of_uint.
    now rewrite DecimalPos.Unsigned.of_to. }
  destruct (Sprint_head (Z.pos p)) as (c & r & Hs & Hc).
  rewrite Hs in Hd |- *. unfold Go.Atoi.
  assert (Hsign : Ascii.eqb c "-" = false /\ Ascii.eqb c "+" = false).
  { split; apply Ascii.eqb_neq; intros ->; now apply Hc. }
  destruct Hsign as [-> ->]. cbn [orb]. rewrite Hd.
  assert (Hmin : (Go.minInt <=? Z.pos p) = true) by (apply Z.leb_le; unfold Go.minInt, Go.intSize; lia).
  assert (Hmax : (Z.pos p <=? Go.maxInt) = true) by now apply Z.leb_le.
  now rewrite Hmin, Hmax.
Qed.

(** ** The run-as identity, further *)

Lemma Sprint_not_empty n : String.eqb (Go.Sprint n) "" = false.
Proof. destruct (Sprint_head n) as (c & r & -> & _). reflexivity. Qed.

Lemma Sprint_not_root n : String.eqb (Go.Sprint n) "root" = false.
Proof.
  destruct (Sprint_head n) as (c & r & -> & Hc).
  apply String.eqb_neq. intros [= -> _]. now apply Hc.
Qed.

(** X8: a [runAs] that is the printed uid of the first record it matches
    resolves to that record's uid and gid, whatever the uid: for uid 0 the
    code parses [runAs] again and gets 0 back, keeping the record's gid. *)
Theorem run_as_by_printed_uid (ic : ImageConfiguration) (acct : User) :
  List.find (matches (RunAs (Accounts ic))) (Users (Accounts ic)) = Some acct ->
  Go.Sprint (UID acct) = RunAs (Accounts ic) ->
  run_as ic = Run [] (Done (UID acct, GID acct)).
Proof.
  intros Hfind Hprint. unfold run_as.
  rewrite search_users_find, Hfind, <- Hprint, Sprint_not_empty, Sprint_not_root.
  cbn [negb andb]. destruct (Z.eqb_spec (UID acct) 0) as [Hz|Hnz].
  - rewrite Hz. reflexivity.
  - now rewrite andb_false_l.
Qed.

Lemma run_as_by_printed_uid_witness :
  List.find (matches (RunAs (Accounts zero_by_number))) (Users (Accounts zero_by_number))
    = Some {| UserName := "root"; UID := 0; GID := 5 |}
  /\ run_as zero_by_number = Run [] (Done (0, 5)).
Proof.
  split; [reflexivity|].
  apply (run_as_by_printed_uid zero_by_number {| UserName := "root"; UID := 0; GID := 5 |});
    reflexivity.
Defined.

(** X9: a [runAs] that is the decimal form of a 32-bit uid and matches no
    record resolves to exactly that uid with gid 0: printing and parsing are
    inverse, and the conversion to [uint32] changes nothing. *)
Theorem numeric_run_as_is_the_uid (ic : ImageConfiguration) (n : Z) :
  0 <= n < 2 ^ 32 ->
  RunAs (Accounts ic) = Go.Sprint n ->
  Forall (fun acct => matches (RunAs (Accounts ic)) acct = false) (Users (Accounts ic)) ->
  run_as ic = Run [] (Done (n, 0))
  /\ credential (n, 0) = (n, 0).
Proof.
  intros Hn Hprint Hno. split.
  - unfold run_as. rewrite (search_users_no_match _ _ _ _ Hno), Hprint.
    rewrite Sprint_not_empty, Sprint_not_root. cbn [negb andb Z.eqb].
    rewrite Atoi_Sprint; [reflexivity|]. unfold Go.maxInt, Go.intSize. lia.
  - unfold credential, Go.uint32. cbn [fst snd].
    now rewrite Z.mod_small, Z.mod_0_l by lia.
Qed.

Lemma numeric_run_as_is_the_uid_witness :
  RunAs (Accounts uid_65532) = Go.Sprint 65532
  /\ run_as uid_65532 = Run [] (Done (65532, 0))
  /\ credential (65532, 0) = (65532, 0).
Proof.
  split; [reflexivity|].
  apply (numeric_run_as_is_the_uid uid_65532 65532).
  - lia.
  - reflexivity.
  - repeat constructor.
Defined.

Lemma run_as_gid ic ug :
  out (run_as ic) = Done ug ->
  snd ug = 0
  \/ (RunAs (Accounts ic) <> ""
      /\ exists acct,
           List.find (matches (RunAs (Accounts ic))) (Users (Accounts ic)) = Some acct
           /\ snd ug = GID acct).
Proof.
  unfold run_as.
  destruct (String.eqb (RunAs (Accounts ic)) "") eqn:Hempty; cbn [negb].
  { intros [= <-]. now left. }
  apply String.eqb_neq in Hempty.
  rewrite search_users_find.
  destruct (List.find _ _) as [acct|] eqn:Hfind.
  - intros H. right. split; [exact Hempty|]. exists acct. split; [reflexivity|].
    destruct ((UID acct =? 0) && negb (String.eqb (RunAs (Accounts ic)) "root")).
    + destruct (Go.Atoi (RunAs (Accounts ic))); [|discriminate].
      now injection H as <-.
    + now injection H as <-.
  - intros H. left.
    destruct ((0 =? 0) && negb (String.eqb (RunAs (Accounts ic)) "root")).
    + destruct (Go.Atoi (RunAs (Accounts ic))); [|discriminate].
      now injection H as <-.
    + now injection H as <-.
Qed.

(** X10: the credential of a launched command is a pair of 32-bit values, and
    its gid is never parsed from [runAs]: a gid other than 0 is the gid of the
    first user record that [runAs] matches, reduced to 32 bits. *)
Theorem gid_comes_from_a_record (w : World) (ic : ImageConfiguration) (c : ExecCmd) :
  out (launcher w ic) = Done c ->
  0 <= Uid c < 2 ^ 32
  /\ 0 <= Gid c < 2 ^ 32
  /\ (Gid c <> 0 ->
      RunAs (Accounts ic) <> ""
      /\ exists acct,
           List.find (matches (RunAs (Accounts ic))) (Users (Accounts ic)) = Some acct
           /\ Gid c = Go.uint32 (GID acct)).
Proof.
  intros Hc. destruct (launcher_fields w ic c Hc) as (_ & _ & ug & Hug & Hu & Hg).
  rewrite Hu, Hg. unfold Go.uint32.
  split; [apply Z.mod_pos_bound; lia|]. split; [apply Z.mod_pos_bound; lia|].
  intros Hnz. destruct (run_as_gid ic ug Hug) as [Hz|(Hne & acct & Hfind & Hgid)].
  - rewrite Hz in Hnz. now rewrite Z.mod_0_l in Hnz by lia.
  - split; [exact Hne|]. exists acct. split; [exact Hfind|]. now rewrite Hgid.
Qed.

Lemma gid_comes_from_a_record_witness :
  exists c,
    out (launcher (guest present as_app) as_app) = Done c
    /\ Uid c = 1000 /\ Gid c = 1001
    /\ exists acct,
         List.find (matches (RunAs (Accounts as_app))) (Users (Accounts as_app)) = Some acct
         /\ Gid c = Go.uint32 (GID acct).
Proof.
  eexists. split; [reflexivity|]. split; [reflexivity|]. split; [reflexivity|].
  apply (gid_comes_from_a_record (guest present as_app) as_app _ eq_refl).
  discriminate.
Defined.

(** ** The zombie reaper, further *)

Module ReaperMore.
Import Reaper.

Lemma reaper_run_snoc child_pid acts a :
  run child_pid (acts ++ [a]) = step child_pid (run child_pid acts) a.
Proof. unfold run. now rewrite fold_left_app. Qed.

Lemma remove_first_perm p l : p ∈ l -> p :: remove_first p l ≡ₚ l.
Proof.
  induction l as [|x l IH]; [intros H; now apply elem_of_nil in H|].
  cbn. destruct (Z.eqb_spec x p) as [->|Hne]; [reflexivity|].
  intros H. apply elem_of_cons in H as [->|H]; [contradiction|].
  rewrite Permutation_swap. now rewrite IH.
Qed.

Lemma poll_accounts child_pid pick st l :
  one_collector child_pid st ->
  Forall (fun p => 0 < p) (reaped st) ->
  reaped st ++ zombies st ≡ₚ l ++ taken_by_reaper child_pid st ->
  Forall (fun p => 0 < p) (reaped (poll child_pid pick st))
  /\ reaped (poll child_pid pick st) ++ zombies (poll child_pid pick st)
     ≡ₚ l ++ taken_by_reaper child_pid (poll child_pid pick st).
Proof.
  intros [Hz Hc] Hpos Hperm. unfold poll.
  destruct (reapable child_pid st) as [|p0 ps] eqn:Hr; [now split|].
  set (pid := nth (Nat.modulo pick (length (p0 :: ps))) (p0 :: ps) p0).
  assert (Hin : pid ∈ reapable child_pid st).
  { rewrite Hr. apply ReaperFacts.nth_elem_of. apply Nat.mod_upper_bound. cbn. lia. }
  destruct (Z.leb_spec pid 0) as [Hle|Hgt]; [now split|].
  assert (Hpos' : Forall (fun p => 0 < p) (reaped st ++ [pid])).
  { apply Forall_app. split; [exact Hpos|]. now repeat constructor. }
  destruct (Z.eqb_spec pid child_pid) as [Heq|Hne]; (split; [exact Hpos'|]);
    cbn [reaped zombies].
  - unfold reapable in Hin. unfold taken_by_reaper in *. cbn [child supervisor].
    destruct (child st) eqn:Hch; try (rewrite Heq in Hin; contradiction).
    destruct Hc as [_ Hw]. rewrite Hw. rewrite Heq.
    rewrite app_nil_r in Hperm. rewrite <- Hperm, <- !app_assoc.
    f_equiv. apply Permutation_app_comm.
  - assert (Hzin : pid ∈ zombies st).
    { unfold reapable in Hin. destruct (child st); auto.
      apply elem_of_cons in Hin as [Heq|Hin]; [contradiction|exact Hin]. }
    change (taken_by_reaper child_pid _) with (taken_by_reaper child_pid st).
    rewrite <- Hperm, <- app_assoc. cbn.
    f_equiv. now apply remove_first_perm.
Qed.

Lemma exited_orphans_snoc child_pid acts a :
  exited_orphans child_pid (acts ++ [a])
  = exited_orphans child_pid acts
    ++ match a with
       | OrphanExits pid =>
           if (pid <=? 0) || (pid =? child_pid) then [] else [pid]
       | _ => []
       end.
Proof.
  unfold exited_orphans. rewrite omap_app. f_equal.
  destruct a as [|pid| | |]; try reflexivity.
  cbn. now destruct ((pid <=? 0) || (pid =? child_pid)).
Qed.

(** X11: the reaper accounts for every exited child of init, in every
    interleaving.  The pids it has logged together with the exited children
    still uncollected are, up to order, the children that exited (and the
    workload child, when its status went to the reaper): none is lost, and
    none is logged more often than it exited.  Every logged pid is
    positive. *)
Theorem reaper_accounts_for_every_exit (child_pid : Z) (acts : list action) :
  reaped (run child_pid acts) ++ zombies (run child_pid acts)
    ≡ₚ exited_orphans child_pid acts ++ taken_by_reaper child_pid (run child_pid acts)
  /\ Forall (fun p => 0 < p) (reaped (run child_pid acts)).
Proof.
  induction acts as [|a acts [IHp IHf]] using rev_ind; [now split|].
  pose proof (ReaperFacts.run_one_collector child_pid acts) as Hinv.
  rewrite reaper_run_snoc, exited_orphans_snoc.
  set (st := run child_pid acts) in *.
  destruct a as [|pid|pick| |]; cbn [step].
  - rewrite app_nil_r. unfold taken_by_reaper in *.
    destruct (child st) eqn:Hch; cbn [reaped zombies child supervisor];
      rewrite ?Hch; now split.
  - destruct ((pid <=? 0) || (pid =? child_pid)) eqn:Hguard.
    + rewrite app_nil_r. now split.
    + split; [|exact IHf]. cbn [reaped zombies].
      change (taken_by_reaper child_pid _) with (taken_by_reaper child_pid st).
      rewrite app_assoc, IHp, <- !app_assoc. f_equiv. apply Permutation_app_comm.
  - rewrite app_nil_r.
    destruct (poll_accounts child_pid pick st _ Hinv IHf IHp) as [Hf Hp].
    now split.
  - rewrite app_nil_r. now split.
  - rewrite app_nil_r. destruct Hinv as [_ Hc]. unfold supervisor_wait.
    unfold taken_by_reaper in *.
    destruct (supervisor st) eqn:Hs; destruct (child st) eqn:Hch;
      cbn [reaped zombies child supervisor]; rewrite ?Hch, ?Hs; now split.
Qed.

End ReaperMore.

(** ** The signal relay, further *)

Module RelayMore.
Import Relay.



End RelayMore.

(** ** The first iteration of [main] *)

(** X13: in the first iteration a [/proc] that cannot be mounted ends the
    process with status 1 at once: nothing is started and no power-off is
    attempted.  Once [/proc] is mounted the run always ends in [shutdown], as
    [shutdown] ends; the fixed command is started exactly when PATH could be
    set, and waited for exactly when the start succeeded. *)
Theorem initial_main_powers_off_once_proc_is_mounted (w : World) :
  (forall e,
     mount_Mount w "proc" "/proc" "proc" "nodev,nosuid,hidepid=2" = Some e ->
     Initial.main w
     = Run [Mount "proc" "/proc" "proc" "nodev,nosuid,hidepid=2";
            Log ("failed to mount: " +:+ e)] (Exited 1))
  /\ (mount_Mount w "proc" "/proc" "proc" "nodev,nosuid,hidepid=2" = None ->
      out (Initial.main w) = out (shutdown w)
      /\ WriteFile sysrq ("s" +:+ nl) ∈ trace (Initial.main w)
      /\ started (trace (Initial.main w))
         = match os_Setenv w "PATH" defaultPath with
           | None => [Initial.cmd]
           | Some _ => []
           end
      /\ waited (trace (Initial.main w))
         = match os_Setenv w "PATH" defaultPath, cmd_Start w Initial.cmd with
           | None, Val pid => [pid]
           | _, _ => []
           end).
Proof.
  split.
  - intros e He. unfold Initial.main, Initial.mount_proc. now rewrite He.
  - intros Hm. unfold Initial.main, Initial.mount_proc, Initial.run_cmd, shutdown.
    rewrite Hm.
    destruct (os_Setenv w "PATH" defaultPath);
      [|destruct (cmd_Start w Initial.cmd) as [pid|e];
        [destruct (cmd_Wait w pid)|]];
      (destruct (os_WriteFile w sysrq ("s" +:+ nl));
       [|destruct (os_WriteFile w sysrq ("o" +:+ nl))]);
      cbn; (split; [reflexivity|]);
      (split; [repeat constructor|]); now split.
Qed.

(** ** The second iteration of [main] *)

Module SecondFacts.
Import Second.

Lemma Split_cons s : exists field fields, Split s = field :: fields.
Proof.
  destruct s as [|c r]; cbn; [now eexists _, _|].
  destruct (Ascii.eqb c " "); [now eexists _, _|].
  destruct (Split r); now eexists _, _.
Qed.

Lemma concat_Split s : String.concat " " (Split s) = s.
Proof.
  induction s as [|c r IH]; [reflexivity|]. cbn [Split].
  destruct (Split_cons r) as (field & fields & Hr). rewrite Hr in IH |- *.
  destruct (Ascii.eqb_spec c " ") as [->|Hne].
  - change (String.append "" (String.append " " (String.concat " " (field :: fields)))
            = String " " r).
    now rewrite IH.
  - destruct fields as [|g gs].
    + change (String c field = String c r). f_equal. exact IH.
    + change (String c (String.append field
                          (String.append " " (String.concat " " (g :: gs))))
              = String c r).
      f_equal. exact IH.
Qed.

Lemma length_Split s : length (Split s) = S (count_spaces s).
Proof.
  induction s as [|c r IH]; [reflexivity|]. cbn [Split count_spaces].
  destruct (Split_cons r) as (field & fields & Hr). rewrite Hr in IH |- *.
  destruct (Ascii.eqb c " "); cbn in IH |- *; lia.
Qed.

Lemma Split_no_space s : Forall (fun field => has_space field = false) (Split s).
Proof.
  induction s as [|c r IH]; [now repeat constructor|]. cbn [Split].
  destruct (Split_cons r) as (field & fields & Hr). rewrite Hr in IH |- *.
  destruct (Ascii.eqb c " ") eqn:Hc.
  - now constructor.
  - apply Forall_cons in IH as [Hf Hfs]. constructor; [|exact Hfs].
    cbn. now rewrite Hc, Hf.
Qed.

Lemma second_launcher_fields w ic c :
  out (launcher w ic) = Done c ->
  Path c = Command (Entrypoint ic)
  /\ Args c = Split (Cmd ic)
  /\ Gid c = 0
  /\ exists uid, Go.Atoi (RunAs (Accounts ic)) = Val uid /\ Uid c = Go.uint32 uid.
Proof.
  unfold launcher.
  destruct (os_Setenv w "PATH" (lookup_env ic "PATH")); [discriminate|].
  destruct (Go.Atoi (RunAs (Accounts ic))) as [uid|e]; [|discriminate].
  cbn. intros [= <-]. cbn. repeat split. now exists uid.
Qed.

(** X14: in the second iteration the executable is [entrypoint.command] as it
    stands, and the arguments are the fields of [cmd] between single spaces:
    joined by single spaces they give [cmd] back, none contains a space, and
    there is one more of them than [cmd] has spaces.  So quotes are not
    interpreted, doubled spaces give empty arguments, and an empty [cmd] gives
    the child one empty argument. *)
Theorem second_arguments_are_the_space_fields
    (w : World) (ic : ImageConfiguration) (c : ExecCmd) :
  out (launcher w ic) = Done c ->
  Path c = Command (Entrypoint ic)
  /\ String.concat " " (Args c) = Cmd ic
  /\ length (Args c) = S (count_spaces (Cmd ic))
  /\ Forall (fun arg => has_space arg = false) (Args c)
  /\ (Cmd ic = "" -> Args c = [""]).
Proof.
  intros Hc. destruct (second_launcher_fields w ic c Hc) as (Hp & Ha & _).
  rewrite Ha. split; [exact Hp|]. split; [apply concat_Split|].
  split; [apply length_Split|]. split; [apply Split_no_space|].
  now intros ->.
Qed.

Lemma second_arguments_are_the_space_fields_witness :
  exists c,
    out (launcher (guest present quoted_words) quoted_words) = Done c
    /\ Path c = "/bin/echo"
    /\ Args c = ["'a"; ""; "b'"; "c"]
    /\ String.concat " " (Args c) = "'a  b' c".
Proof.
  eexists. split; [reflexivity|]. split; [reflexivity|]. split; [reflexivity|].
  apply (second_arguments_are_the_space_fields
           (guest present quoted_words) quoted_words _ eq_refl).
Defined.

Lemma second_load_config_started w : started (trace (load_config w)) = [].
Proof. unfold load_config. no_start. Qed.

Lemma second_launcher_started w ic : started (trace (launcher w ic)) = [].
Proof. unfold launcher. no_start. Qed.

Lemma second_run_cmd_started w c : started (trace (run_cmd w c)) = [c].
Proof.
  unfold run_cmd. cbn. destruct (cmd_Start w c) as [pid|e]; [|reflexivity].
  cbn. now destruct (cmd_Wait w pid).
Qed.

Lemma second_load_config_out w :
  out (load_config w)
  = match os_ReadFile w apko_json with
    | (b, Some e) => Panicked ("failed to read /etc/apko.json: " +:+ e)
    | (b, None) =>
        match json_Unmarshal w b with
        | Val ic => Done (ensure_PATH ic)
        | Err e => Panicked ("failed to unmarshal /etc/apko.json: " +:+ e)
        end
    end.
Proof.
  unfold load_config. destruct (os_ReadFile w apko_json) as [b [e|]]; cbn;
    [reflexivity|]. now destruct (json_Unmarshal w b).
Qed.

Lemma second_started_main w :
  started (trace (main w))
  = match mount_Mount w "proc" "/proc" "proc" "nodev,nosuid,hidepid=2",
          os_ReadFile w apko_json with
    | None, (b, None) =>
        match json_Unmarshal w b with
        | Val ic =>
            match out (launcher w (ensure_PATH ic)) with
            | Done c => [c]
            | _ => []
            end
        | Err _ => []
        end
    | _, _ => []
    end.
Proof.
  unfold main. rewrite started_bind_eq. unfold Initial.mount_proc at 1 2.
  destruct (mount_Mount w "proc" "/proc" "proc" "nodev,nosuid,hidepid=2");
    [reflexivity|].
  cbn [trace out emit mbind M_bind mret M_ret app started omap list_omap].
  rewrite trace_defer, started_app.
  assert (Hd : started match out (ic ← load_config w; cmd ← launcher w ic; run_cmd w cmd) with
                       | Done _ | Panicked _ => trace (shutdown w)
                       | _ => []
                       end = []).
  { destruct (out _); try reflexivity; apply shutdown_started. }
  rewrite Hd, app_nil_r.
  rewrite started_bind_eq, second_load_config_started, second_load_config_out. cbn [app].
  destruct (os_ReadFile w apko_json) as [b [e|]]; [reflexivity|].
  destruct (json_Unmarshal w b) as [ic|e]; [|reflexivity].
  rewrite started_bind_eq, second_launcher_started. cbn [app].
  destruct (out (launcher w (ensure_PATH ic))); try reflexivity.
  apply second_run_cmd_started.
Qed.

(** X15: the second iteration starts a process only when [/proc] was mounted,
    the configuration file was read without error and parsed, and [runAs] is a
    number: an empty or non-numeric [runAs], like a failed read, panics before
    the start.  The process it starts is the one the launcher built, started
    once, with that number (reduced to 32 bits) as uid and with gid 0. *)
Theorem second_start_needs_file_and_numeric_run_as (w : World) (c : ExecCmd) :
  c ∈ started (trace (main w)) ->
  mount_Mount w "proc" "/proc" "proc" "nodev,nosuid,hidepid=2" = None
  /\ snd (os_ReadFile w apko_json) = None
  /\ exists ic uid,
       json_Unmarshal w (fst (os_ReadFile w apko_json)) = Val ic
       /\ Go.Atoi (RunAs (Accounts ic)) = Val uid
       /\ RunAs (Accounts ic) <> ""
       /\ out (launcher w (ensure_PATH ic)) = Done c
       /\ Uid c = Go.uint32 uid /\ Gid c = 0
       /\ started (trace (main w)) = [c].
Proof.
  rewrite second_started_main.
  destruct (mount_Mount w "proc" "/proc" "proc" "nodev,nosuid,hidepid=2");
    [intros H; now apply elem_of_nil in H|].
  destruct (os_ReadFile w apko_json) as [b [e|]];
    [intros H; now apply elem_of_nil in H|].
  cbn [fst snd].
  destruct (json_Unmarshal w b) as [ic|e];
    [|intros H; now apply elem_of_nil in H].
  destruct (out (launcher w (ensure_PATH ic))) as [c'| | |] eqn:Hl;
    [|intros H; now apply elem_of_nil in H..].
  intros H. apply list_elem_of_singleton in H as ->.
  destruct (second_launcher_fields w (ensure_PATH ic) c' Hl) as (_ & _ & Hg & uid & Hu & Huid).
  change (RunAs (Accounts (ensure_PATH ic))) with (RunAs (Accounts ic)) in Hu.
  split; [reflexivity|]. split; [reflexivity|]. exists ic, uid.
  repeat split; auto. intros Hempty. rewrite Hempty in Hu. discriminate.
Qed.

Lemma second_start_needs_file_and_numeric_run_as_witness :
  exists c,
    c ∈ started (trace (main (guest present quoted_words)))
    /\ Uid c = 1000 /\ Gid c = 0
    /\ started (trace (main (guest present quoted_words))) = [c].
Proof.
  eexists. split; [vm_compute; apply elem_of_cons; left; reflexivity|].
  destruct (second_start_needs_file_and_numeric_run_as (guest present quoted_words) _
              ltac:(vm_compute; apply elem_of_cons; left; reflexivity))
    as (_ & _ & ic & uid & _ & _ & _ & _ & _ & _ & Hs).
  split; [reflexivity|]. split; [reflexivity|]. exact Hs.
Defined.

End SecondFacts.
